(** * Ensuro prototype: accounting core of the insurance protocol

    Shallow embedding of [src/api/prototype.py] (classes [RiskModule],
    [Policy], [EToken] and [Protocol]) and the properties of the
    fixed-point pool accounting and of the capital allocation.

    Conventions of the embedding.
    - Python integers are unbounded, so the raw value of a [Wad] or a [Ray]
      is a [Z].
    - A method that mutates [self] and may raise is a computation
      [M S A = S -> (error + A) * S]: an exception keeps every mutation
      made before it was raised, exactly as a Python exception leaves the
      object.
    - The module-level clock [_now] is passed to every operation as the
      argument [now]; two calls with the same [now] are calls without a
      [fast_forward_time] in between.
    - [Protocol.etokens] is a Python dict iterated in insertion order: an
      association list.  The provider-keyed dicts of a pool are only looked
      up, updated, deleted from and summed: finite maps. *)

From Stdlib Require Import ZArith Lia.
From stdpp Require Import gmap strings list fin_maps.

Local Open Scope Z_scope.

(** ** Exceptions *)

(** The three [assert] statements of the source, named after the error of
    the specification each stands for. *)
Inductive assertion : Set :=
| InvalidPolicy        (* assert policy.interest_rate > 0 *)
| InsufficientCapital  (* assert ocean >= policy.mcr *)
| InsufficientOcean.   (* assert mcr_amount <= ocean *)

Inductive error : Set :=
| ZeroDivisionError
| KeyError (key : string)
| AssertionError (site : assertion).

Abbreviation result A := (error + A)%type.

Definition res_map {A B} (f : A -> B) (r : result A) : result B :=
  match r with
  | inl e => inl e
  | inr a => inr (f a)
  end.

(** ** State and exception monad *)

Definition M (S A : Type) : Type := S -> result A * S.

Definition ret {S A} (a : A) : M S A := fun s => (inr a, s).

Definition bind {S A B} (m : M S A) (k : A -> M S B) : M S B :=
  fun s =>
    match m s with
    | (inl e, s') => (inl e, s')
    | (inr a, s') => k a s'
    end.

Definition raise {S A} (e : error) : M S A := fun s => (inl e, s).
Definition get {S} : M S S := fun s => (inr s, s).
Definition modify {S} (f : S -> S) : M S unit := fun s => (inr tt, f s).
Definition lift {S A} (r : result A) : M S A := fun s => (r, s).
Definition assert_ {S} (b : bool) (site : assertion) : M S unit :=
  if b then ret tt else raise (AssertionError site).

Notation "x <- m ;; k" := (bind m (fun x => k))
  (at level 20, m at level 99, k at level 200, only parsing).
Notation "m ;;; k" := (bind m (fun _ => k))
  (at level 20, k at level 200, only parsing).

(** ** Fixed-point numbers (module [wadray]) *)

Module wadray.

(** Modelled from the spec: the module [wadray] imported by
    [prototype.py] ([WAD], [RAY], [Wad], [Ray]) is not part of the
    sources.  Section 4.1 of the specification gives its operations: add
    and subtract on the raw integers, [a * b] as [(a.raw * b.raw) / SCALE]
    and [a // b] as [(a.raw * SCALE) / b.raw], both truncated toward zero,
    [to_ray] as [raw * 10^9], [to_wad] as [raw / 10^9] truncated,
    [from_value n] as [n * SCALE], and division by zero failing.  The
    backing integer is the unbounded one of section 9 ("use a
    big-integer backing"), so no operation overflows.  An operator is
    dispatched on the class of its left operand and reads the raw integer
    of the right one. *)

Definition WAD : Z := 10 ^ 18.
Definition RAY : Z := 10 ^ 27.
Definition WAD_RAY_RATIO : Z := 10 ^ 9.

Abbreviation Wad := Z (only parsing).
Abbreviation Ray := Z (only parsing).

Definition Wad_from_value (n : Z) : Wad := n * WAD.
Definition Ray_from_value (n : Z) : Ray := n * RAY.

Definition Wad_mul (a b : Wad) : Wad := (a * b) ÷ WAD.
Definition Ray_mul (a b : Ray) : Ray := (a * b) ÷ RAY.

Definition Wad_floordiv (a : Wad) (b : Z) : result Wad :=
  if b =? 0 then inl ZeroDivisionError else inr ((a * WAD) ÷ b).
Definition Ray_floordiv (a : Ray) (b : Z) : result Ray :=
  if b =? 0 then inl ZeroDivisionError else inr ((a * RAY) ÷ b).

Definition Wad_to_ray (a : Wad) : Ray := a * WAD_RAY_RATIO.
Definition Ray_to_wad (a : Ray) : Wad := a ÷ WAD_RAY_RATIO.

End wadray.
Import wadray.

Definition SECONDS_IN_YEAR : Z := 365 * 24 * 3600.

(** ** Insertion-ordered dictionaries *)

Module Dict.

(** [d[k]]. *)
Fixpoint get_item {V} (k : string) (d : list (string * V)) : option V :=
  match d with
  | [] => None
  | (k', v) :: d' => if String.eqb k k' then Some v else get_item k d'
  end.

(** [d[k] = v]: an existing key keeps its position, a new one is
    appended. *)
Fixpoint set_item {V} (k : string) (v : V) (d : list (string * V))
  : list (string * V) :=
  match d with
  | [] => [(k, v)]
  | (k', v') :: d' =>
      if String.eqb k k' then (k, v) :: d' else (k', v') :: set_item k v d'
  end.

End Dict.

(** ** RiskModule *)

Module RiskModule.

Record t : Type := mk {
  name : string;
  mcr_percentage : Ray;
  premium_share : Ray;
  ensuro_share : Ray
}.

(** [RiskModule.build]: integer percentages divided by 100 as [Ray]. *)
Definition build (name : string) (mcr_percentage premium_share ensuro_share : Z)
  : result t :=
  match Ray_floordiv (Ray_from_value mcr_percentage) (Ray_from_value 100),
        Ray_floordiv (Ray_from_value premium_share) (Ray_from_value 100),
        Ray_floordiv (Ray_from_value ensuro_share) (Ray_from_value 100) with
  | inr m, inr p, inr e => inr (mk name m p e)
  | inl err, _, _ | _, inl err, _ | _, _, inl err => inl err
  end.

End RiskModule.

(** ** Policy *)

Module Policy.

Record t : Type := mk {
  policy_id : Z;
  risk_module : RiskModule.t;
  premium : Wad;
  payout : Wad;
  mcr : Wad;
  loss_prob : Ray;
  start : Z;
  expiration : Z;
  parameters : list (string * string);
  locked_funds : list (string * Wad)
}.

(** [Policy.__init__]. *)
Definition init (policy_id : Z) (risk_module : RiskModule.t)
    (payout premium : Wad) (loss_prob : Ray) (start expiration : Z)
    (parameters : list (string * string)) : t :=
  {| policy_id := policy_id;
     risk_module := risk_module;
     premium := premium;
     payout := payout;
     mcr := Ray_to_wad (Ray_mul (Wad_to_ray (payout - premium))
                                (RiskModule.mcr_percentage risk_module));
     loss_prob := loss_prob;
     start := start;
     expiration := expiration;
     parameters := parameters;
     locked_funds := [] |}.

Definition pure_premium (self : t) : Wad :=
  Ray_to_wad (Ray_mul (Wad_to_ray (payout self)) (loss_prob self)).

Definition interest_rate (self : t) : result Ray :=
  let profit_premium := premium self - pure_premium self in
  let for_ensuro :=
    Ray_to_wad (Ray_mul (Wad_to_ray profit_premium)
                        (RiskModule.ensuro_share (risk_module self))) in
  let for_risk_module :=
    Ray_to_wad (Ray_mul (Wad_to_ray profit_premium)
                        (RiskModule.premium_share (risk_module self))) in
  let for_lps := profit_premium - for_ensuro - for_risk_module in
  res_map Wad_to_ray
    (Wad_floordiv (Wad_mul for_lps (Wad_from_value SECONDS_IN_YEAR))
                  (Wad_mul (Wad_from_value (expiration self - start self))
                           (mcr self))).

(** [policy.locked_funds.append(entry)]. *)
Definition append_locked_funds (entry : string * Wad) (self : t) : t :=
  {| policy_id := policy_id self;
     risk_module := risk_module self;
     premium := premium self;
     payout := payout self;
     mcr := mcr self;
     loss_prob := loss_prob self;
     start := start self;
     expiration := expiration self;
     parameters := parameters self;
     locked_funds := locked_funds self ++ [entry] |}.

End Policy.

(** ** EToken: the capital pool *)

Module EToken.

Record t : Type := mk {
  name : string;
  expiration_period : Z;
  current_index : Ray;
  last_index_update : Z;
  balances : gmap string Z;
  indexes : gmap string Z;
  timestamps : gmap string Z;
  decimals : Z;
  mcr : Wad;
  mcr_interest_rate : Ray;
  token_interest_rate : Ray
}.

(** Attribute assignments [self.<field> = v]. *)
Definition set_current_index (v : Ray) (e : t) : t :=
  mk (name e) (expiration_period e) v (last_index_update e) (balances e)
     (indexes e) (timestamps e) (decimals e) (mcr e) (mcr_interest_rate e)
     (token_interest_rate e).
Definition set_last_index_update (v : Z) (e : t) : t :=
  mk (name e) (expiration_period e) (current_index e) v (balances e)
     (indexes e) (timestamps e) (decimals e) (mcr e) (mcr_interest_rate e)
     (token_interest_rate e).
Definition set_balances (v : gmap string Z) (e : t) : t :=
  mk (name e) (expiration_period e) (current_index e) (last_index_update e) v
     (indexes e) (timestamps e) (decimals e) (mcr e) (mcr_interest_rate e)
     (token_interest_rate e).
Definition set_indexes (v : gmap string Z) (e : t) : t :=
  mk (name e) (expiration_period e) (current_index e) (last_index_update e)
     (balances e) v (timestamps e) (decimals e) (mcr e) (mcr_interest_rate e)
     (token_interest_rate e).
Definition set_timestamps (v : gmap string Z) (e : t) : t :=
  mk (name e) (expiration_period e) (current_index e) (last_index_update e)
     (balances e) (indexes e) v (decimals e) (mcr e) (mcr_interest_rate e)
     (token_interest_rate e).
Definition set_mcr (v : Wad) (e : t) : t :=
  mk (name e) (expiration_period e) (current_index e) (last_index_update e)
     (balances e) (indexes e) (timestamps e) (decimals e) v
     (mcr_interest_rate e) (token_interest_rate e).
Definition set_mcr_interest_rate (v : Ray) (e : t) : t :=
  mk (name e) (expiration_period e) (current_index e) (last_index_update e)
     (balances e) (indexes e) (timestamps e) (decimals e) (mcr e) v
     (token_interest_rate e).
Definition set_token_interest_rate (v : Ray) (e : t) : t :=
  mk (name e) (expiration_period e) (current_index e) (last_index_update e)
     (balances e) (indexes e) (timestamps e) (decimals e) (mcr e)
     (mcr_interest_rate e) v.

(** [d[k]] and [del d[k]] on a provider-keyed dict: [KeyError] on a
    missing key. *)
Definition getitem (d : gmap string Z) (k : string) : M t Z :=
  match d !! k with
  | Some v => ret v
  | None => raise (KeyError k)
  end.
Definition delitem (d : gmap string Z) (k : string) : M t (gmap string Z) :=
  match d !! k with
  | Some _ => ret (delete k d)
  | None => raise (KeyError k)
  end.

(** [EToken.__init__]; [decimals] is asserted to be 18. *)
Definition init (now : Z) (name : string) (expiration_period : Z) : t :=
  {| name := name;
     expiration_period := expiration_period;
     current_index := RAY;
     last_index_update := now;
     balances := ∅;
     indexes := ∅;
     timestamps := ∅;
     decimals := 18;
     mcr := 0;
     mcr_interest_rate := 0;
     token_interest_rate := 0 |}.

Definition _calculate_current_index (now : Z) : M t Ray :=
  self <- get ;;
  increment <-
    lift (Ray_floordiv
            (Ray_mul (Ray_mul (current_index self)
                              (Ray_from_value (now - last_index_update self)))
                     (token_interest_rate self))
            (Ray_from_value SECONDS_IN_YEAR)) ;;
  ret (current_index self + increment).

Definition _update_current_index (now : Z) : M t unit :=
  idx <- _calculate_current_index now ;;
  modify (set_current_index idx) ;;;
  modify (set_last_index_update now).

(** [sum(self.balances.values(), Wad(0))]. *)
Definition base_supply (self : t) : Wad :=
  map_fold (fun _ v acc => acc + v) 0 (balances self).

Definition total_supply (now : Z) : M t Wad :=
  self <- get ;;
  idx <- _calculate_current_index now ;;
  ret (Ray_to_wad (Ray_mul (Wad_to_ray (base_supply self)) idx)).

Definition ocean (now : Z) : M t Wad :=
  supply <- total_supply now ;;
  self <- get ;;
  ret (supply - mcr self).

Definition lock_mcr (now : Z) (policy : Policy.t) (mcr_amount : Wad) : M t unit :=
  total_supply <- total_supply now ;;
  self <- get ;;
  let ocean := total_supply - mcr self in
  assert_ (mcr_amount <=? ocean) InsufficientOcean ;;;
  _update_current_index now ;;;
  self <- get ;;
  (if mcr self =? 0 then
     modify (set_mcr mcr_amount) ;;;
     rate <- lift (Policy.interest_rate policy) ;;
     modify (set_mcr_interest_rate rate)
   else
     let orig_mcr := mcr self in
     modify (set_mcr (orig_mcr + mcr_amount)) ;;;
     self <- get ;;
     rate <- lift (Policy.interest_rate policy) ;;
     blended <-
       lift (Ray_floordiv
               (Ray_mul (mcr_interest_rate self) (Wad_to_ray orig_mcr)
                + Ray_mul rate (Wad_to_ray mcr_amount))
               (mcr self)) ;;
     modify (set_mcr_interest_rate blended)) ;;;
  self <- get ;;
  rate <- lift (Ray_floordiv
                  (Ray_mul (mcr_interest_rate self) (Wad_to_ray (mcr self)))
                  (Wad_to_ray total_supply)) ;;
  modify (set_token_interest_rate rate).

Definition balance_of (now : Z) (provider : string) : M t Wad :=
  self <- get ;;
  match balances self !! provider with
  | None => ret 0
  | Some _ =>
      _update_current_index now ;;;
      self <- get ;;
      principal_balance <- getitem (balances self) provider ;;
      index <- getitem (indexes self) provider ;;
      scaled <- lift (Ray_floordiv
                        (Ray_mul (Wad_to_ray principal_balance)
                                 (current_index self))
                        index) ;;
      ret (Ray_to_wad scaled)
  end.

Definition deposit (now : Z) (provider : string) (amount : Wad) : M t Wad :=
  _update_current_index now ;;;
  balance <- balance_of now provider ;;
  self <- get ;;
  modify (set_balances (<[provider := balance + amount]> (balances self))) ;;;
  self <- get ;;
  modify (set_indexes (<[provider := current_index self]> (indexes self))) ;;;
  self <- get ;;
  modify (set_timestamps (<[provider := now]> (timestamps self))) ;;;
  self <- get ;;
  getitem (balances self) provider.

(** [amount] is [None] for Python's [None] (redeem everything). *)
Definition redeem (now : Z) (provider : string) (amount : option Wad) : M t Wad :=
  balance <- balance_of now provider ;;
  if balance =? 0 then ret 0
  else
    let amount :=
      match amount with
      | None => balance
      | Some a => if a >? balance then balance else a
      end in
    self <- get ;;
    modify (set_balances (<[provider := balance - amount]> (balances self))) ;;;
    _update_current_index now ;;;
    (if balance =? amount then
       self <- get ;;
       b <- delitem (balances self) provider ;;
       modify (set_balances b) ;;;
       self <- get ;;
       i <- delitem (indexes self) provider ;;
       modify (set_indexes i) ;;;
       self <- get ;;
       ts <- delitem (timestamps self) provider ;;
       modify (set_timestamps ts)
     else
       self <- get ;;
       modify (set_indexes (<[provider := current_index self]> (indexes self))) ;;;
       self <- get ;;
       modify (set_timestamps (<[provider := now]> (timestamps self)))) ;;;
    ret amount.

Definition accepts (now : Z) (policy : Policy.t) : M t bool :=
  self <- get ;;
  ret (Policy.expiration policy <=? now + expiration_period self).

End EToken.

(** ** Protocol: the coordinator *)

Module Protocol.

Record t : Type := mk {
  risk_modules : gmap string RiskModule.t;
  etokens : list (string * EToken.t);
  policies : list Policy.t;
  policy_count : Z
}.

Definition set_risk_modules (v : gmap string RiskModule.t) (p : t) : t :=
  mk v (etokens p) (policies p) (policy_count p).
Definition set_etokens (v : list (string * EToken.t)) (p : t) : t :=
  mk (risk_modules p) v (policies p) (policy_count p).
Definition set_policies (v : list Policy.t) (p : t) : t :=
  mk (risk_modules p) (etokens p) v (policy_count p).
Definition set_policy_count (v : Z) (p : t) : t :=
  mk (risk_modules p) (etokens p) (policies p) v.

(** [Protocol.__init__] with its default arguments. *)
Definition init : t :=
  {| risk_modules := ∅; etokens := []; policies := []; policy_count := 0 |}.

Definition add_risk_module (risk_module : RiskModule.t) : M t unit :=
  self <- get ;;
  modify (set_risk_modules
            (<[RiskModule.name risk_module := risk_module]> (risk_modules self))).

Definition add_etoken (etoken : EToken.t) : M t unit :=
  self <- get ;;
  modify (set_etokens (Dict.set_item (EToken.name etoken) etoken (etokens self))).

(** A method call [self.etokens[key].method(...)]: the pool object is
    looked up ([KeyError] when absent), the method runs on it, and the
    mutated object stays where it was in the dict. *)
Definition on_etoken {A} (key : string) (method : M EToken.t A) : M t A :=
  fun self =>
    match Dict.get_item key (etokens self) with
    | None => (inl (KeyError key), self)
    | Some etk =>
        let (r, etk') := method etk in
        (r, set_etokens (Dict.set_item key etk' (etokens self)) self)
    end.

(** [for etk in d.values(): acc = body(acc, etk)], where [body] may mutate
    the pool it visits and an exception ends the loop. *)
Fixpoint for_values {A} (body : A -> M EToken.t A) (acc : A)
    (d : list (string * EToken.t)) : result A * list (string * EToken.t) :=
  match d with
  | [] => (inr acc, [])
  | (key, etk) :: rest =>
      match body acc etk with
      | (inl e, etk') => (inl e, (key, etk') :: rest)
      | (inr acc', etk') =>
          let (r, rest') := for_values body acc' rest in
          (r, (key, etk') :: rest')
      end
  end.

Definition deposit (now : Z) (etoken provider : string) (amount : Wad) : M t Wad :=
  on_etoken etoken (EToken.deposit now provider amount).

(** Body of the first loop of [new_policy]: the accumulator is the pair
    [(ocean, ocean_per_token)]. *)
Definition collect_ocean (now : Z) (policy : Policy.t)
    (acc : Wad * list (string * Wad)) : M EToken.t (Wad * list (string * Wad)) :=
  accepted <- EToken.accepts now policy ;;
  if negb accepted then ret acc
  else
    ocean_token <- EToken.ocean now ;;
    if ocean_token =? 0 then ret acc
    else
      etk <- get ;;
      ret (fst acc + ocean_token,
           Dict.set_item (EToken.name etk) ocean_token (snd acc)).

(** Second loop of [new_policy], over [enumerate(ocean_per_token.items())]
    from position [index] on; [size] is [len(ocean_per_token)].  Returns
    the policy with its [locked_funds] filled in. *)
Fixpoint lock_funds (now : Z) (ocean : Wad) (size : Z) (index : Z)
    (items : list (string * Wad)) (policy : Policy.t) (mcr_not_locked : Wad)
  : M t Policy.t :=
  match items with
  | [] => ret policy
  | (token_name, ocean_token) :: rest =>
      mcr_for_token <-
        (if index <? size - 1
         then lift (Wad_floordiv (Wad_mul (Policy.mcr policy) ocean_token) ocean)
         else ret mcr_not_locked) ;;
      on_etoken token_name (EToken.lock_mcr now policy mcr_for_token) ;;;
      lock_funds now ocean size (index + 1) rest
        (Policy.append_locked_funds (token_name, mcr_for_token) policy)
        (mcr_not_locked - mcr_for_token)
  end.

Definition new_policy (now : Z) (risk_module_name : string)
    (payout premium : Wad) (loss_prob : Ray) (expiration : Z)
    (parameters : list (string * string)) : M t Policy.t :=
  self <- get ;;
  match risk_modules self !! risk_module_name with
  | None => raise (KeyError risk_module_name)
  | Some rm =>
      let start := now in
      modify (set_policy_count (policy_count self + 1)) ;;;
      self <- get ;;
      let policy :=
        Policy.init (policy_count self) rm payout premium loss_prob start
                    expiration parameters in
      rate <- lift (Policy.interest_rate policy) ;;
      assert_ (rate >? 0) InvalidPolicy ;;;
      self <- get ;;
      acc <- (fun self : t =>
                let (r, etks) :=
                  for_values (collect_ocean now policy) (0, []) (etokens self) in
                (r, set_etokens etks self)) ;;
      let ocean := fst acc in
      let ocean_per_token := snd acc in
      assert_ (ocean >=? Policy.mcr policy) InsufficientCapital ;;;
      policy <- lock_funds now ocean (Z.of_nat (length ocean_per_token)) 0
                  ocean_per_token policy (Policy.mcr policy) ;;
      self <- get ;;
      modify (set_policies (policies self ++ [policy])) ;;;
      ret policy
  end.

End Protocol.

(** * What the operations evaluate to *)

(** The linear projection of the index, [index(t)] of the specification, in
    [Ray] arithmetic: the product with the rate is a [Ray] product. *)
Definition projected_index (now : Z) (e : EToken.t) : Ray :=
  EToken.current_index e
  + ((EToken.current_index e * (now - EToken.last_index_update e)
      * EToken.token_interest_rate e) ÷ RAY) ÷ SECONDS_IN_YEAR.

(** The pool after [_update_current_index]. *)
Definition realized (now : Z) (e : EToken.t) : EToken.t :=
  EToken.set_last_index_update now
    (EToken.set_current_index (projected_index now e) e).

(** The values [total_supply()], [ocean] and [accepts(policy)] evaluate
    to. *)
Definition supply_at (now : Z) (e : EToken.t) : Wad :=
  Ray_to_wad (Ray_mul (Wad_to_ray (EToken.base_supply e)) (projected_index now e)).

Definition ocean_at (now : Z) (e : EToken.t) : Wad :=
  supply_at now e - EToken.mcr e.

Definition accepts_at (now : Z) (policy : Policy.t) (e : EToken.t) : bool :=
  Policy.expiration policy <=? now + EToken.expiration_period e.

(** The first loop of [new_policy], one pool at a time and over the whole
    dict. *)
Definition collect_ocean_at (now : Z) (policy : Policy.t)
    (acc : Z * list (string * Z)) (e : EToken.t) : Z * list (string * Z) :=
  if negb (accepts_at now policy e) then acc
  else if ocean_at now e =? 0 then acc
  else (fst acc + ocean_at now e,
        Dict.set_item (EToken.name e) (ocean_at now e) (snd acc)).

Definition scan_oceans (now : Z) (policy : Policy.t)
    (d : list (string * EToken.t)) (acc : Z * list (string * Z))
  : Z * list (string * Z) :=
  fold_left (fun a kv => collect_ocean_at now policy a (snd kv)) d acc.

(** The policy object [new_policy] builds once the risk module is found. *)
Definition drafted_policy (now : Z) (p : Protocol.t) (rm : RiskModule.t)
    (payout premium loss_prob expiration : Z) (parameters : list (string * string))
  : Policy.t :=
  Policy.init (Protocol.policy_count p + 1) rm payout premium loss_prob now
              expiration parameters.

(** * The statements of the specification *)

Definition sum_amounts (funds : list (string * Z)) : Z :=
  foldr (fun entry acc => snd entry + acc) 0 funds.

(** The sum of the stored balances in the words of the specification: one
    term per provider of the dict. *)
Definition sum_of_balances (balances : gmap string Z) : Z :=
  foldr (fun entry acc => snd entry + acc) 0 (map_to_list balances).

(** The eligible pools in the words of the specification: the pool accepts
    the policy and has free capital. *)
Definition eligible (now : Z) (policy : Policy.t) (e : EToken.t) : bool :=
  accepts_at now policy e && (0 <? ocean_at now e).

Definition total_eligible_ocean (now : Z) (policy : Policy.t)
    (d : list (string * EToken.t)) : Z :=
  foldr (fun kv acc =>
           (if eligible now policy (snd kv) then ocean_at now (snd kv) else 0) + acc)
        0 d.

(** The shares of a policy, position by position from [index] on: every
    position before the last one ([size - 1]) gets
    [policy.mcr * ocean_token // ocean] in [Wad] arithmetic, the last one
    what is left to lock. *)
Fixpoint shares_of (mcr ocean size index : Z) (items allocations : list (string * Z))
    (mcr_not_locked : Z) : Prop :=
  match items, allocations with
  | [], [] => True
  | (token_name, ocean_token) :: items', (name, amount) :: allocations' =>
      name = token_name
      /\ (if index <? size - 1
          then Wad_floordiv (Wad_mul mcr ocean_token) ocean = inr amount
          else amount = mcr_not_locked)
      /\ shares_of mcr ocean size (index + 1) items' allocations'
                   (mcr_not_locked - amount)
  | _, _ => False
  end.

(** A deposit followed at once by the redemption of the same amount gives
    the amount back and leaves, in the pool [e2], no entry for the
    provider. *)
Definition round_trip_to (now : Z) (provider : string) (amount : Z)
    (e e2 : EToken.t) : Prop :=
  exists (balance : Z) (e1 : EToken.t),
    EToken.deposit now provider amount e = (inr balance, e1)
    /\ EToken.redeem now provider (Some amount) e1 = (inr amount, e2)
    /\ EToken.balances e2 !! provider = None
    /\ EToken.indexes e2 !! provider = None
    /\ EToken.timestamps e2 !! provider = None.

(** * Scenarios *)

Module Scenario.

Definition day : Z := 24 * 3600.

(** [RiskModule.build("R")]: everything collateralized, no shares. *)
Definition rm : RiskModule.t := RiskModule.mk "R" RAY 0 0.

Definition dollars (n : Z) : Z := Wad_from_value n.

Definition fresh_pool : EToken.t := EToken.init 0 "P" SECONDS_IN_YEAR.

(** A coordinator with the risk module ["R"] and one pool ["P"] holding a
    deposit of [amount] dollars. *)
Definition one_pool (amount : Z) : Protocol.t :=
  snd ((Protocol.add_risk_module rm ;;;
        Protocol.add_etoken fresh_pool ;;;
        Protocol.deposit 0 "P" "LP" (dollars amount)) Protocol.init).

(** Two pools with free capital of 3000 and 7000 dollars. *)
Definition two_pools : Protocol.t :=
  snd ((Protocol.add_risk_module rm ;;;
        Protocol.add_etoken (EToken.init 0 "P1" SECONDS_IN_YEAR) ;;;
        Protocol.add_etoken (EToken.init 0 "P2" SECONDS_IN_YEAR) ;;;
        Protocol.deposit 0 "P1" "LP1" (dollars 3000) ;;;
        Protocol.deposit 0 "P2" "LP2" (dollars 7000)) Protocol.init).

(** The sale of a policy paying [payout] dollars for a premium of 100
    dollars, with a loss probability of one per cent, expiring in 30
    days. *)
Definition sell (payout : Z) : M Protocol.t Policy.t :=
  Protocol.new_policy 0 "R" (dollars payout) (dollars 100) (RAY ÷ 100)
                      (30 * day) [].

Definition issued (r : result Policy.t) : Policy.t :=
  match r with
  | inr policy => policy
  | inl _ => Policy.init 0 rm 0 0 0 0 0 []
  end.

(** The policy of scenario 3, backed by the two pools. *)
Definition split_policy : Policy.t := issued (fst (sell 200 two_pools)).

(** A sale that needs 600 dollars where 500 are free, an accepted sale
    after it, and a sale naming a risk module nobody registered. *)
Definition rejected : result Policy.t * Protocol.t := sell 700 (one_pool 500).
Definition accepted : result Policy.t * Protocol.t := sell 200 (snd rejected).
Definition unknown : result Policy.t * Protocol.t :=
  Protocol.new_policy 0 "unknown" (dollars 200) (dollars 100) (RAY ÷ 100)
                      (30 * day) [] (one_pool 500).

(** Two policies with rates of 0.10 and 0.20 per year. *)
Definition policy_a : Policy.t :=
  Policy.init 1 rm (dollars 110) (dollars 10) 0 0 SECONDS_IN_YEAR [].
Definition policy_b : Policy.t :=
  Policy.init 2 rm (dollars 360) (dollars 60) 0 0 SECONDS_IN_YEAR [].

(** A pool with a deposit of 1000 dollars, before and after it locks 100
    dollars for [policy_a], and after it then locks 300 dollars for
    [policy_b]. *)
Definition funded_pool : EToken.t :=
  snd (EToken.deposit 0 "LP" (dollars 1000) fresh_pool).
Definition backing_pool : EToken.t :=
  snd (EToken.lock_mcr 0 policy_a (dollars 100) funded_pool).
Definition blended : result unit * EToken.t :=
  EToken.lock_mcr 0 policy_b (dollars 300) backing_pool.

(** A provider tracked with a balance of zero. *)
Definition idle_provider_pool : EToken.t :=
  snd (EToken.deposit 0 "LP" 0 fresh_pool).

(** Pool ["A"] backs a policy with 50 dollars and its only provider then
    redeems everything, so that its ocean is 50 dollars below zero; pool
    ["B"] holds 1000 dollars of free capital. *)
Definition insolvent : Protocol.t :=
  snd ((Protocol.add_risk_module rm ;;;
        Protocol.add_etoken (EToken.init 0 "A" SECONDS_IN_YEAR) ;;;
        Protocol.add_etoken (EToken.init 0 "B" SECONDS_IN_YEAR) ;;;
        Protocol.deposit 0 "A" "LP1" (dollars 100) ;;;
        sell 150 ;;;
        Protocol.on_etoken "A" (EToken.redeem 0 "LP1" None) ;;;
        Protocol.deposit 0 "B" "LP2" (dollars 1000)) Protocol.init).

End Scenario.

(** The consequence of counting attempts: a rejected sale followed by an
    accepted one issues the policy number 2 as the only policy. *)
Definition skipped_policy_id : Prop :=
  fst Scenario.rejected = inl (AssertionError InsufficientCapital)
  /\ Policy.policy_id (Scenario.issued (fst Scenario.accepted)) = 2
  /\ Protocol.policies (snd Scenario.accepted) = [Scenario.issued (fst Scenario.accepted)]
  /\ Protocol.policy_count (snd Scenario.accepted) = 2.

(** * The clock, and notions used by the further properties *)

Module Clock.

(** The module-level [_now] is the state; [Protocol.now] and
    [Protocol.fast_forward_time] touch nothing else. *)
Definition now : M Z Z := get.

Definition fast_forward_time (secs : Z) : M Z Z :=
  modify (fun _now => _now + secs) ;;;
  get.

End Clock.

(** The three provider-keyed dicts of a pool track the same providers. *)
Definition tracked_alike (e : EToken.t) : Prop :=
  dom (EToken.balances e) = dom (EToken.indexes e)
  /\ dom (EToken.balances e) = dom (EToken.timestamps e).

(** No issued policy carries an identifier above [policy_count]. *)
Definition ids_bounded (p : Protocol.t) : Prop :=
  Forall (fun policy => Policy.policy_id policy <= Protocol.policy_count p)
         (Protocol.policies p).


(** The amount [redeem] takes out of a balance that is not zero. *)
Definition redeemed (amount : option Z) (balance : Z) : Z :=
  match amount with
  | None => balance
  | Some a => if a >? balance then balance else a
  end.

(** The capital locked in the pools of the coordinator, added up. *)
Definition total_locked (d : list (string * EToken.t)) : Z :=
  foldr (fun kv acc => EToken.mcr (snd kv) + acc) 0 d.

Arguments WAD : simpl never.
Arguments RAY : simpl never.
Arguments WAD_RAY_RATIO : simpl never.
Arguments SECONDS_IN_YEAR : simpl never.

(** * Properties *)

(** ** Lemmas on the model *)

Section Arithmetic.

Lemma WAD_pos : 0 < WAD.
Proof. reflexivity. Qed.

Lemma RAY_pos : 0 < RAY.
Proof. reflexivity. Qed.

Lemma WAD_RAY_RATIO_pos : 0 < WAD_RAY_RATIO.
Proof. reflexivity. Qed.

Lemma SECONDS_IN_YEAR_pos : 0 < SECONDS_IN_YEAR.
Proof. reflexivity. Qed.

Lemma RAY_split : RAY = WAD * WAD_RAY_RATIO.
Proof. reflexivity. Qed.

Lemma Ray_mul_from_value (a n : Z) : Ray_mul a (Ray_from_value n) = a * n.
Proof.
  unfold Ray_mul, Ray_from_value. rewrite Z.mul_assoc.
  apply Z.quot_mul. pose proof RAY_pos. lia.
Qed.

Lemma Wad_mul_from_value (n a : Z) : Wad_mul (Wad_from_value n) a = n * a.
Proof.
  unfold Wad_mul, Wad_from_value.
  replace (n * WAD * a) with (n * a * WAD) by ring.
  apply Z.quot_mul. pose proof WAD_pos. lia.
Qed.

Lemma Ray_mul_0_l (a : Z) : Ray_mul 0 a = 0.
Proof. unfold Ray_mul. rewrite Z.mul_0_l. apply Z.quot_0_l. pose proof RAY_pos. lia. Qed.

Lemma Ray_floordiv_from_value (a n : Z) :
  n <> 0 -> Ray_floordiv a (Ray_from_value n) = inr (a ÷ n).
Proof.
  intros Hn. unfold Ray_floordiv, Ray_from_value. pose proof RAY_pos.
  destruct (Z.eqb_spec (n * RAY) 0) as [E | _]; [nia |].
  f_equal. apply Z.quot_mul_cancel_r; lia.
Qed.

Lemma Ray_to_wad_to_ray (a : Z) : Ray_to_wad (Wad_to_ray a) = a.
Proof.
  unfold Ray_to_wad, Wad_to_ray. apply Z.quot_mul.
  pose proof WAD_RAY_RATIO_pos. lia.
Qed.

Lemma Wad_floordiv_inr (a b q : Z) :
  Wad_floordiv a b = inr q -> b <> 0 /\ q = (a * WAD) ÷ b.
Proof.
  unfold Wad_floordiv. destruct (Z.eqb_spec b 0); [discriminate |].
  intros [= <-]. auto.
Qed.

Lemma Ray_floordiv_inr (a b q : Z) :
  Ray_floordiv a b = inr q -> b <> 0 /\ q = (a * RAY) ÷ b.
Proof.
  unfold Ray_floordiv. destruct (Z.eqb_spec b 0); [discriminate |].
  intros [= <-]. auto.
Qed.

End Arithmetic.

Section PoolEquations.

Variable now : Z.

Lemma calculate_current_index_eq (e : EToken.t) :
  EToken._calculate_current_index now e = (inr (projected_index now e), e).
Proof.
  unfold EToken._calculate_current_index, bind, get, lift, ret.
  rewrite Ray_mul_from_value, Ray_floordiv_from_value
    by (pose proof SECONDS_IN_YEAR_pos; lia).
  reflexivity.
Qed.

Lemma update_current_index_eq (e : EToken.t) :
  EToken._update_current_index now e = (inr tt, realized now e).
Proof.
  unfold EToken._update_current_index, bind.
  rewrite calculate_current_index_eq. reflexivity.
Qed.

Lemma total_supply_eq (e : EToken.t) :
  EToken.total_supply now e = (inr (supply_at now e), e).
Proof.
  unfold EToken.total_supply, bind, get.
  rewrite calculate_current_index_eq. reflexivity.
Qed.

Lemma ocean_eq (e : EToken.t) :
  EToken.ocean now e = (inr (ocean_at now e), e).
Proof.
  unfold EToken.ocean, bind. rewrite total_supply_eq. reflexivity.
Qed.

Lemma accepts_eq (policy : Policy.t) (e : EToken.t) :
  EToken.accepts now policy e = (inr (accepts_at now policy e), e).
Proof. reflexivity. Qed.

(** Projecting a pool to the instant of its last realization adds no
    increment. *)
Lemma projected_index_same_instant (e : EToken.t) :
  EToken.last_index_update e = now ->
  projected_index now e = EToken.current_index e.
Proof.
  intros <-. unfold projected_index.
  rewrite Z.sub_diag, Z.mul_0_r, Z.mul_0_l.
  pose proof SECONDS_IN_YEAR_pos. pose proof RAY_pos.
  rewrite !Z.quot_0_l; lia.
Qed.

Lemma realized_idempotent (e : EToken.t) :
  realized now (realized now e) = realized now e.
Proof.
  unfold realized at 1. rewrite (projected_index_same_instant (realized now e)) by reflexivity.
  reflexivity.
Qed.

(** [base_supply] adds the stored balances up. *)
Lemma base_supply_empty (e : EToken.t) :
  EToken.balances e = ∅ -> EToken.base_supply e = 0.
Proof. intros H. unfold EToken.base_supply. rewrite H. apply map_fold_empty. Qed.

Lemma base_supply_insert (e : EToken.t) (provider : string) (balance : Z) :
  EToken.balances e !! provider = None ->
  EToken.base_supply (EToken.set_balances (<[provider := balance]> (EToken.balances e)) e)
  = EToken.base_supply e + balance.
Proof.
  intros Hfresh. unfold EToken.base_supply. cbn [EToken.balances EToken.set_balances].
  rewrite map_fold_insert_L; [reflexivity | intros; lia | exact Hfresh].
Qed.

End PoolEquations.

Section LockMcr.

Variable now : Z.

(** The supply of a pool does not depend on its locked capital nor on its
    rates once the index is realized at [now]. *)
Lemma supply_at_realized (e e' : EToken.t) :
  EToken.balances e' = EToken.balances e ->
  EToken.current_index e' = projected_index now e ->
  EToken.last_index_update e' = now ->
  supply_at now e' = supply_at now e.
Proof.
  intros Hb Hi Ht. unfold supply_at, EToken.base_supply.
  rewrite (projected_index_same_instant now e' Ht), Hb, Hi. reflexivity.
Qed.

Lemma lock_mcr_token_rate (policy : Policy.t) (mcr_amount : Z) (e e' : EToken.t) :
  EToken.lock_mcr now policy mcr_amount e = (inr tt, e') ->
  supply_at now e' = supply_at now e /\
  Ray_floordiv (Ray_mul (EToken.mcr_interest_rate e') (Wad_to_ray (EToken.mcr e')))
               (Wad_to_ray (supply_at now e))
  = inr (EToken.token_interest_rate e').
Proof.
  unfold EToken.lock_mcr, bind. rewrite total_supply_eq. cbn [get].
  unfold assert_. destruct (mcr_amount <=? supply_at now e - EToken.mcr e); cbn [ret raise]; [| discriminate].
  rewrite update_current_index_eq. cbn [get].
  destruct (EToken.mcr (realized now e) =? 0); cbn [modify lift];
    destruct (Policy.interest_rate policy) as [err | rate]; try discriminate.
  - cbn [modify].
    destruct (Ray_floordiv _ _) as [err | q] eqn:Hq; [discriminate |].
    intros [= <-]. split; [now apply supply_at_realized |]. exact Hq.
  - destruct (Ray_floordiv _ (EToken.mcr _)) as [err | blended]; [discriminate |].
    cbn [modify].
    destruct (Ray_floordiv _ _) as [err | q] eqn:Hq; [discriminate |].
    intros [= <-]. split; [now apply supply_at_realized |]. exact Hq.
Qed.
End LockMcr.

Section NewPolicy.

Variable now : Z.

Lemma collect_ocean_eq (policy : Policy.t) (acc : Z * list (string * Z)) (e : EToken.t) :
  Protocol.collect_ocean now policy acc e = (inr (collect_ocean_at now policy acc e), e).
Proof.
  unfold Protocol.collect_ocean, collect_ocean_at, bind.
  rewrite accepts_eq. destruct (accepts_at now policy e); cbn [negb ret]; [| reflexivity].
  rewrite ocean_eq. destruct (ocean_at now e =? 0); reflexivity.
Qed.

Lemma for_values_collect_ocean (policy : Policy.t) (d : list (string * EToken.t))
    (acc : Z * list (string * Z)) :
  Protocol.for_values (Protocol.collect_ocean now policy) acc d
  = (inr (scan_oceans now policy d acc), d).
Proof.
  revert acc. induction d as [| [key etk] rest IH]; intros acc; cbn [Protocol.for_values].
  - reflexivity.
  - rewrite collect_ocean_eq, IH. reflexivity.
Qed.

Lemma set_etokens_same (p : Protocol.t) :
  Protocol.set_etokens (Protocol.etokens p) p = p.
Proof. now destruct p. Qed.

(** The coordinator fields a method call on a pool leaves alone. *)
Lemma on_etoken_frame {A} (key : string) (method : M EToken.t A) (p : Protocol.t) :
  Protocol.policy_count (snd (Protocol.on_etoken key method p)) = Protocol.policy_count p
  /\ Protocol.policies (snd (Protocol.on_etoken key method p)) = Protocol.policies p
  /\ Protocol.risk_modules (snd (Protocol.on_etoken key method p)) = Protocol.risk_modules p.
Proof.
  unfold Protocol.on_etoken.
  destruct (Dict.get_item key (Protocol.etokens p)); [| auto].
  destruct (method t); auto.
Qed.

(** Choosing the share of a pool does not touch the coordinator, and the
    pool at the last position gets what is left. *)
Lemma mcr_for_token_state (b : bool) (r : result Z) (rest : Z) (p : Protocol.t) :
  snd ((if b then lift r else ret rest) p) = p.
Proof. now destruct b. Qed.

Lemma mcr_for_token_last (index size : Z) (r : result Z) (rest : Z) (p : Protocol.t) :
  size - 1 <= index ->
  fst ((if index <? size - 1 then lift r else ret rest) p) = inr rest.
Proof. intros H. destruct (Z.ltb_spec index (size - 1)); [lia | reflexivity]. Qed.

Lemma lock_funds_frame (ocean size : Z) (items : list (string * Z)) :
  forall (index : Z) (policy : Policy.t) (mcr_not_locked : Z) (p : Protocol.t)
         (r : result Policy.t) (p' : Protocol.t),
    Protocol.lock_funds now ocean size index items policy mcr_not_locked p = (r, p') ->
    Protocol.policy_count p' = Protocol.policy_count p
    /\ Protocol.policies p' = Protocol.policies p
    /\ Protocol.risk_modules p' = Protocol.risk_modules p.
Proof.
  induction items as [| [token_name ocean_token] rest IH];
    intros index policy mnl p r p'; cbn [Protocol.lock_funds].
  - intros [= <- <-]. auto.
  - cbv zeta. unfold bind at 1.
    pose proof (mcr_for_token_state (index <? size - 1)
                  (Wad_floordiv (Wad_mul (Policy.mcr policy) ocean_token) ocean)
                  mnl p) as Hstate.
    destruct (_ p) as [[err | amount] p1] in Hstate |- *;
      cbn [snd] in Hstate; subst p1.
    + intros [= <- <-]. auto.
    + unfold bind at 1.
      pose proof (on_etoken_frame token_name (EToken.lock_mcr now policy amount) p) as Hlock.
      destruct (Protocol.on_etoken _ _ p) as [[err | []] p2]; cbn [snd] in Hlock.
      * intros [= <- <-]. exact Hlock.
      * intros Hrest. apply IH in Hrest as (-> & -> & ->). exact Hlock.
Qed.

Lemma sum_amounts_app (l1 l2 : list (string * Z)) :
  sum_amounts (l1 ++ l2) = sum_amounts l1 + sum_amounts l2.
Proof.
  unfold sum_amounts. induction l1 as [| [k v] l1 IH]; cbn [app foldr snd].
  - lia.
  - rewrite IH. lia.
Qed.

(** The second loop hands out exactly what was left to lock, whenever it
    runs to the end over a non-empty list whose last position is
    [size - 1]. *)
Lemma lock_funds_allocates (ocean size : Z) (items : list (string * Z)) :
  forall (index : Z) (policy : Policy.t) (mcr_not_locked : Z) (p : Protocol.t)
         (policy' : Policy.t) (p' : Protocol.t),
    Protocol.lock_funds now ocean size index items policy mcr_not_locked p
      = (inr policy', p') ->
    Policy.mcr policy' = Policy.mcr policy
    /\ exists allocations,
        Policy.locked_funds policy' = Policy.locked_funds policy ++ allocations
        /\ map fst allocations = map fst items
        /\ (items <> [] -> index + Z.of_nat (length items) = size ->
            sum_amounts allocations = mcr_not_locked).
Proof.
  induction items as [| [token_name ocean_token] rest IH];
    intros index policy mnl p policy' p'; cbn [Protocol.lock_funds].
  - intros [= <- <-]. split; [reflexivity |]. exists []. rewrite app_nil_r. now repeat split.
  - cbv zeta. unfold bind at 1.
    pose proof (mcr_for_token_last index size
                  (Wad_floordiv (Wad_mul (Policy.mcr policy) ocean_token) ocean)
                  mnl p) as Hamount.
    destruct (_ p) as [[err | amount] p1] in Hamount |- *; [discriminate |].
    unfold bind at 1.
    destruct (Protocol.on_etoken _ _ p1) as [[err | []] p2]; [discriminate |].
    intros Hrest. apply IH in Hrest as (Hmcr & allocations & Hfunds & Hnames & Hsum).
    split; [exact Hmcr |].
    exists ((token_name, amount) :: allocations). repeat split.
    + rewrite Hfunds. cbn. now rewrite <- app_assoc.
    + cbn. now rewrite Hnames.
    + intros _ Hsize. cbn [sum_amounts foldr snd]. fold (sum_amounts allocations).
      destruct rest as [| item rest'].
      * assert (amount = mnl) as ->.
        { cbn in Hsize. specialize (Hamount ltac:(lia)). cbn in Hamount. congruence. }
        destruct allocations; [cbn; lia | discriminate].
      * rewrite Hsum; [lia | discriminate |].
        cbn [length] in Hsize |- *. lia.
Qed.

End NewPolicy.

Section NewPolicyOutcome.

Variable now : Z.
Variables (risk_module_name : string) (payout premium loss_prob expiration : Z)
          (parameters : list (string * string)).

Lemma new_policy_unknown (p : Protocol.t) :
  Protocol.risk_modules p !! risk_module_name = None ->
  Protocol.new_policy now risk_module_name payout premium loss_prob expiration
                      parameters p = (inl (KeyError risk_module_name), p).
Proof.
  intros Hrm. unfold Protocol.new_policy, bind, get. now rewrite Hrm.
Qed.

Lemma new_policy_known (p : Protocol.t) (rm : RiskModule.t) :
  Protocol.risk_modules p !! risk_module_name = Some rm ->
  Protocol.new_policy now risk_module_name payout premium loss_prob expiration
                      parameters p =
    let p1 := Protocol.set_policy_count (Protocol.policy_count p + 1) p in
    let policy :=
    drafted_policy now p rm payout premium loss_prob expiration parameters in
    match Policy.interest_rate policy with
    | inl e => (inl e, p1)
    | inr rate =>
        if rate >? 0 then
          let acc := scan_oceans now policy (Protocol.etokens p) (0, []) in
          if fst acc >=? Policy.mcr policy then
            match Protocol.lock_funds now (fst acc) (Z.of_nat (length (snd acc))) 0
                    (snd acc) policy (Policy.mcr policy) p1 with
            | (inl e, p2) => (inl e, p2)
            | (inr policy', p2) =>
                (inr policy',
                 Protocol.set_policies (Protocol.policies p2 ++ [policy']) p2)
            end
          else (inl (AssertionError InsufficientCapital), p1)
        else (inl (AssertionError InvalidPolicy), p1)
    end.
Proof.
  intros Hrm. unfold drafted_policy, Protocol.new_policy, bind, get. rewrite Hrm.
  cbn [modify lift Protocol.policy_count Protocol.set_policy_count Protocol.etokens].
  cbv zeta.
  destruct (Policy.interest_rate _) as [err | rate]; [reflexivity |].
  unfold assert_. destruct (rate >? 0); cbn [ret raise]; [| reflexivity].
  rewrite for_values_collect_ocean.
  change (Protocol.set_etokens (Protocol.etokens p) _)
    with (Protocol.set_policy_count (Protocol.policy_count p + 1) p).
  destruct (_ >=? _); cbn [ret raise]; [| reflexivity].
  destruct (Protocol.lock_funds _ _ _ _ _ _ _ _) as [[err | policy'] p2]; reflexivity.
Qed.

End NewPolicyOutcome.

Section Allocation.

Variable now : Z.

Lemma interest_rate_mcr_nonzero (policy : Policy.t) (rate : Z) :
  Policy.interest_rate policy = inr rate -> Policy.mcr policy <> 0.
Proof.
  unfold Policy.interest_rate, res_map.
  destruct (Wad_floordiv _ _) as [err | q] eqn:Hq; [discriminate |]. intros _.
  apply Wad_floordiv_inr in Hq as [Hdiv _].
  rewrite Wad_mul_from_value in Hdiv. intros Hmcr. rewrite Hmcr in Hdiv. lia.
Qed.

Lemma set_item_nonempty {V} (k : string) (v : V) (d : list (string * V)) :
  Dict.set_item k v d <> [].
Proof.
  destruct d as [| [k' v'] d]; cbn; [discriminate |].
  destruct (String.eqb k k'); discriminate.
Qed.

(** Capital is only ever counted together with an entry of
    [ocean_per_token]. *)
Lemma scan_oceans_empty (policy : Policy.t) (d : list (string * EToken.t)) :
  forall acc : Z * list (string * Z),
    (snd acc = [] -> fst acc = 0) ->
    snd (scan_oceans now policy d acc) = [] ->
    fst (scan_oceans now policy d acc) = 0.
Proof.
  unfold scan_oceans.
  induction d as [| [key etk] rest IH]; intros acc Hacc; cbn [fold_left snd].
  - exact Hacc.
  - apply IH. unfold collect_ocean_at.
    destruct (negb _); [exact Hacc |].
    destruct (_ =? 0); [exact Hacc |].
    cbn [snd]. intros Hnil. now apply set_item_nonempty in Hnil.
Qed.

(** The capital counted by the first loop never exceeds the free capital
    of the eligible pools: a pool the loop counts and the specification
    does not has a negative ocean. *)
Lemma scan_oceans_le_eligible (policy : Policy.t) (d : list (string * EToken.t)) :
  forall acc : Z * list (string * Z),
    fst (scan_oceans now policy d acc)
    <= fst acc + total_eligible_ocean now policy d.
Proof.
  unfold scan_oceans, total_eligible_ocean.
  induction d as [| [key etk] rest IH]; intros acc; cbn [fold_left foldr snd].
  - lia.
  - etransitivity; [apply IH |].
    unfold collect_ocean_at, eligible.
    destruct (accepts_at now policy etk); cbn [negb andb]; [| lia].
    destruct (Z.ltb_spec 0 (ocean_at now etk));
      destruct (Z.eqb_spec (ocean_at now etk) 0); cbn [fst]; lia.
Qed.

End Allocation.

Section Shares.

Variable now : Z.

Lemma lock_funds_shares (ocean size : Z) (items : list (string * Z)) :
  forall (index : Z) (policy : Policy.t) (mcr_not_locked : Z) (p : Protocol.t)
         (policy' : Policy.t) (p' : Protocol.t),
    Protocol.lock_funds now ocean size index items policy mcr_not_locked p
      = (inr policy', p') ->
    exists allocations,
      Policy.locked_funds policy' = Policy.locked_funds policy ++ allocations
      /\ shares_of (Policy.mcr policy) ocean size index items allocations
                   mcr_not_locked.
Proof.
  induction items as [| [token_name ocean_token] rest IH];
    intros index policy mnl p policy' p'; cbn [Protocol.lock_funds].
  - intros [= <- <-]. exists []. now rewrite app_nil_r.
  - cbv zeta. unfold bind at 1.
    destruct (index <? size - 1) eqn:Hindex.
    + unfold lift at 1.
      destruct (Wad_floordiv _ _) as [err | amount] eqn:Hshare; [discriminate |].
      unfold bind at 1.
      destruct (Protocol.on_etoken _ _ p) as [[err | []] p2]; [discriminate |].
      intros Hrest. apply IH in Hrest as (allocations & Hfunds & Hshares).
      exists ((token_name, amount) :: allocations). split.
      * rewrite Hfunds. cbn. now rewrite <- app_assoc.
      * cbn [shares_of]. rewrite Hindex. auto.
    + unfold ret at 1. unfold bind at 1.
      destruct (Protocol.on_etoken _ _ p) as [[err | []] p2]; [discriminate |].
      intros Hrest. apply IH in Hrest as (allocations & Hfunds & Hshares).
      exists ((token_name, mnl) :: allocations). split.
      * rewrite Hfunds. cbn. now rewrite <- app_assoc.
      * cbn [shares_of]. rewrite Hindex. auto.
Qed.

Lemma set_item_fresh {V} (k : string) (v : V) (d : list (string * V)) :
  k ∉ map fst d -> Dict.set_item k v d = d ++ [(k, v)].
Proof.
  induction d as [| [k' v'] d IH]; cbn; [reflexivity |].
  intros Hfresh. apply not_elem_of_cons in Hfresh as [Hne Hfresh].
  destruct (String.eqb_spec k k'); [congruence |]. now rewrite IH.
Qed.

(** On pools that are solvent (no negative ocean) and have distinct names,
    [ocean_per_token] lists the eligible pools of the specification, in
    registration order, each with its ocean. *)
Lemma scan_oceans_eligible (policy : Policy.t) (d : list (string * EToken.t)) :
  forall acc : Z * list (string * Z),
    Forall (fun kv => 0 <= ocean_at now (snd kv)) d ->
    NoDup (map fst (snd acc) ++ map (fun kv => EToken.name (snd kv)) d) ->
    snd (scan_oceans now policy d acc)
    = snd acc
      ++ map (fun kv => (EToken.name (snd kv), ocean_at now (snd kv)))
             (List.filter (fun kv => eligible now policy (snd kv)) d).
Proof.
  unfold scan_oceans.
  induction d as [| [key etk] rest IH]; intros acc Hsolvent Hnames;
    cbn [fold_left List.filter map snd].
  - now rewrite app_nil_r.
  - apply Forall_cons in Hsolvent as [Hetk Hsolvent]. cbn [snd] in Hetk.
    cbn [map snd] in Hnames.
    assert (NoDup (map fst (snd acc) ++ map (fun kv => EToken.name (snd kv)) rest))
      as Hrest.
    { apply NoDup_app in Hnames as (? & Hdisj & Hcons).
      apply NoDup_cons in Hcons as [? ?].
      apply NoDup_app. repeat split; [assumption | | assumption].
      intros x Hx Hin. apply (Hdisj x Hx). now right. }
    unfold collect_ocean_at at 2, eligible.
    destruct (accepts_at now policy etk); cbn [negb andb].
    2:{ now apply IH. }
    destruct (Z.eqb_spec (ocean_at now etk) 0) as [Hzero | Hne].
    { rewrite Hzero. cbn. now apply IH. }
    destruct (Z.ltb_spec 0 (ocean_at now etk)); [| lia].
    rewrite IH; cbn [snd fst]; [| assumption |].
    + rewrite set_item_fresh.
      * cbn [map]. now rewrite <- app_assoc.
      * apply NoDup_app in Hnames as (_ & Hdisj & _).
        intros Hin. apply (Hdisj _ Hin). now left.
    + rewrite set_item_fresh.
      * rewrite map_app. cbn [map fst]. rewrite <- app_assoc. exact Hnames.
      * apply NoDup_app in Hnames as (_ & Hdisj & _).
        intros Hin. apply (Hdisj _ Hin). now left.
Qed.

End Shares.

Section Providers.

Variable now : Z.
Variable provider : string.

Lemma balance_of_untracked (e : EToken.t) :
  EToken.balances e !! provider = None ->
  EToken.balance_of now provider e = (inr 0, e).
Proof. intros H. unfold EToken.balance_of, bind, get. now rewrite H. Qed.

Lemma balance_of_tracked (e : EToken.t) (principal index : Z) :
  EToken.balances e !! provider = Some principal ->
  EToken.indexes e !! provider = Some index ->
  EToken.balance_of now provider e
  = (res_map Ray_to_wad
       (Ray_floordiv (Ray_mul (Wad_to_ray principal) (projected_index now e)) index),
     realized now e).
Proof.
  intros Hb Hi. unfold EToken.balance_of, bind, get. rewrite Hb.
  rewrite update_current_index_eq. unfold EToken.getitem.
  cbn [realized EToken.set_last_index_update EToken.set_current_index
       EToken.balances EToken.indexes EToken.current_index].
  rewrite Hb, Hi. cbn [ret lift].
  destruct (Ray_floordiv _ _); reflexivity.
Qed.

(** Reading a balance touches the index of the pool at most. *)
Lemma balance_of_maps (e e' : EToken.t) (r : result Z) :
  EToken.balance_of now provider e = (r, e') ->
  EToken.balances e' = EToken.balances e
  /\ EToken.indexes e' = EToken.indexes e
  /\ EToken.timestamps e' = EToken.timestamps e.
Proof.
  unfold EToken.balance_of, bind, get.
  destruct (EToken.balances e !! provider) as [principal |] eqn:Hb.
  - rewrite update_current_index_eq. unfold EToken.getitem.
    cbn [realized EToken.set_last_index_update EToken.set_current_index
         EToken.balances EToken.indexes EToken.current_index].
    rewrite Hb. cbn [ret].
    destruct (EToken.indexes e !! provider); cbn [ret raise lift].
    + destruct (Ray_floordiv _ _); intros [= <- <-]; auto.
    + intros [= <- <-]; auto.
  - intros [= <- <-]; auto.
Qed.

(** Scaling [amount] by an index and back is exact when the product of the
    two is a whole number of [WAD]s. *)
Lemma scale_round_trip (amount index : Z) :
  0 < index -> (amount * index) mod WAD = 0 ->
  res_map Ray_to_wad (Ray_floordiv (Ray_mul (Wad_to_ray amount) index) index)
  = inr amount.
Proof.
  intros Hindex Hexact.
  apply Z.mod_divide in Hexact as [k Hk]; [| pose proof WAD_pos; lia].
  unfold Ray_floordiv. destruct (Z.eqb_spec index 0); [lia |]. cbn [res_map].
  f_equal. unfold Ray_mul, Wad_to_ray.
  assert (amount * WAD_RAY_RATIO * index = k * RAY) as Hray.
  { rewrite RAY_split.
    replace (amount * WAD_RAY_RATIO * index) with (amount * index * WAD_RAY_RATIO) by ring.
    rewrite Hk. ring. }
  rewrite Hray, Z.quot_mul by (pose proof RAY_pos; lia).
  rewrite <- Hray, Z.quot_mul by lia.
  apply Ray_to_wad_to_ray.
Qed.

End Providers.


(** * The claims *)

(** ** [Protocol.new_policy] *)




(** C2, the code at the failing input: the pool ["A"] has a negative ocean
    and is not eligible, yet the first loop of [new_policy] keeps it (it
    skips a pool only when its ocean equals zero); a sale that the
    eligible pool ["B"] alone could back then fails at the assertion of
    [lock_mcr] on ["A"]. *)
Theorem new_policy_keeps_negative_ocean :
  map (fun kv => (fst kv, ocean_at 0 (snd kv),
                  eligible 0 (drafted_policy 0 Scenario.insolvent Scenario.rm
                                (Scenario.dollars 200) (Scenario.dollars 100)
                                (RAY ÷ 100) (30 * Scenario.day) [])
                           (snd kv)))
      (Protocol.etokens Scenario.insolvent)
  = [("A", Scenario.dollars (-50), false); ("B", Scenario.dollars 1000, true)]
  /\ Policy.mcr (drafted_policy 0 Scenario.insolvent Scenario.rm
                   (Scenario.dollars 200) (Scenario.dollars 100)
                   (RAY ÷ 100) (30 * Scenario.day) [])
     = Scenario.dollars 100
  /\ scan_oceans 0 (drafted_policy 0 Scenario.insolvent Scenario.rm
                      (Scenario.dollars 200) (Scenario.dollars 100)
                      (RAY ÷ 100) (30 * Scenario.day) [])
                 (Protocol.etokens Scenario.insolvent) (0, [])
     = (Scenario.dollars 950,
        [("A", Scenario.dollars (-50)); ("B", Scenario.dollars 1000)])
  /\ fst (Scenario.sell 200 Scenario.insolvent) = inl (AssertionError InsufficientOcean).
Proof.
  repeat split; vm_compute; reflexivity.
Qed.

(** C3 (as amended): when the risk module is registered, the policy passes
    the interest-rate check and the free capital of the eligible pools is
    below [policy.mcr], [Protocol.new_policy] fails at the capital
    assertion and leaves every pool, the registries and the policy list as
    they were; of the coordinator only [policy_count] has moved, by one. *)
Theorem new_policy_insufficient_capital
    (now : Z) (risk_module_name : string) (payout premium loss_prob expiration : Z)
    (parameters : list (string * string)) (p : Protocol.t) (rm : RiskModule.t)
    (rate : Z) :
  Protocol.risk_modules p !! risk_module_name = Some rm ->
  Policy.interest_rate
    (drafted_policy now p rm payout premium loss_prob expiration parameters)
  = inr rate ->
  0 < rate ->
  total_eligible_ocean now
    (drafted_policy now p rm payout premium loss_prob expiration parameters)
    (Protocol.etokens p)
  < Policy.mcr (drafted_policy now p rm payout premium loss_prob expiration parameters) ->
  Protocol.new_policy now risk_module_name payout premium loss_prob expiration
                      parameters p
  = (inl (AssertionError InsufficientCapital),
     Protocol.set_policy_count (Protocol.policy_count p + 1) p).
Proof.
  intros Hrm Hrate Hpos Hcapital.
  rewrite (new_policy_known _ _ _ _ _ _ _ _ rm Hrm). cbv zeta.
  set (draft := drafted_policy now p rm payout premium loss_prob expiration parameters)
    in *.
  rewrite Hrate.
  destruct (Z.gtb_spec rate 0); [| lia].
  pose proof (scan_oceans_le_eligible now draft (Protocol.etokens p) (0, [])) as Hle.
  cbn [fst] in Hle.
  destruct (Z.geb_spec (fst (scan_oceans now draft (Protocol.etokens p) (0, [])))
                       (Policy.mcr draft)); [lia | reflexivity].
Qed.

Lemma new_policy_insufficient_capital_witness :
  Protocol.new_policy 0 "R" (Scenario.dollars 700) (Scenario.dollars 100) (RAY ÷ 100)
                      (30 * Scenario.day) [] (Scenario.one_pool 500)
  = (inl (AssertionError InsufficientCapital),
     Protocol.set_policy_count (Protocol.policy_count (Scenario.one_pool 500) + 1)
                               (Scenario.one_pool 500)).
Proof.
  apply (new_policy_insufficient_capital 0 "R" (Scenario.dollars 700)
           (Scenario.dollars 100) (RAY ÷ 100) (30 * Scenario.day) []
           (Scenario.one_pool 500) Scenario.rm 1885833333333333333000000000).
  - vm_compute. reflexivity.
  - vm_compute. reflexivity.
  - reflexivity.
  - vm_compute. reflexivity.
Defined.

(** C3 as stated fails: with 500 dollars of eligible capital and a policy
    that needs 600, the call fails at the capital assertion but the
    coordinator is not what it was, [policy_count] went from 0 to 1. *)
Lemma new_policy_insufficient_capital_not_neutral :
  total_eligible_ocean 0
    (drafted_policy 0 (Scenario.one_pool 500) Scenario.rm (Scenario.dollars 700)
                    (Scenario.dollars 100) (RAY ÷ 100) (30 * Scenario.day) [])
    (Protocol.etokens (Scenario.one_pool 500))
  < Policy.mcr
      (drafted_policy 0 (Scenario.one_pool 500) Scenario.rm (Scenario.dollars 700)
                      (Scenario.dollars 100) (RAY ÷ 100) (30 * Scenario.day) [])
  /\ fst Scenario.rejected = inl (AssertionError InsufficientCapital)
  /\ Protocol.policy_count (Scenario.one_pool 500) = 0
  /\ Protocol.policy_count (snd Scenario.rejected) = 1
  /\ snd Scenario.rejected <> Scenario.one_pool 500.
Proof.
  split; [vm_compute; reflexivity |]. split; [vm_compute; reflexivity |].
  split; [vm_compute; reflexivity |]. split; [vm_compute; reflexivity |].
  intros Hsame. apply (f_equal Protocol.policy_count) in Hsame.
  vm_compute in Hsame. discriminate.
Qed.

(** C9 (as amended): every call of [Protocol.new_policy] that names a
    registered risk module increments [policy_count] by one, whatever the
    outcome of the call: the increment precedes the interest-rate check and
    the capital check, so a call failing there leaves it in place.  Hence
    the identifiers of the issued policies need not be consecutive and
    [policy_count] can exceed the number of issued policies. *)
Theorem new_policy_counts_attempts
    (now : Z) (risk_module_name : string) (payout premium loss_prob expiration : Z)
    (parameters : list (string * string)) (p : Protocol.t) (rm : RiskModule.t) :
  Protocol.risk_modules p !! risk_module_name = Some rm ->
  Protocol.policy_count
    (snd (Protocol.new_policy now risk_module_name payout premium loss_prob
                              expiration parameters p))
  = Protocol.policy_count p + 1
  /\ skipped_policy_id.
Proof.
  intros Hrm. split.
  - rewrite (new_policy_known _ _ _ _ _ _ _ _ rm Hrm). cbv zeta.
    destruct (Policy.interest_rate _) as [err | rate]; [reflexivity |].
    destruct (rate >? 0); [| reflexivity].
    destruct (_ >=? _); [| reflexivity].
    destruct (Protocol.lock_funds _ _ _ _ _ _ _ _) as [[err | issued] p2] eqn:Hlock;
      apply lock_funds_frame in Hlock as (Hcount & _ & _); cbn [snd];
      [| cbn [Protocol.set_policies Protocol.policy_count]]; now rewrite Hcount.
  - unfold skipped_policy_id. repeat split; vm_compute; reflexivity.
Qed.

Lemma new_policy_counts_attempts_witness :
  Protocol.policy_count
    (snd (Protocol.new_policy 0 "R" (Scenario.dollars 700) (Scenario.dollars 100)
            (RAY ÷ 100) (30 * Scenario.day) [] (Scenario.one_pool 500)))
  = Protocol.policy_count (Scenario.one_pool 500) + 1
  /\ skipped_policy_id.
Proof.
  apply (new_policy_counts_attempts 0 "R" (Scenario.dollars 700) (Scenario.dollars 100)
           (RAY ÷ 100) (30 * Scenario.day) [] (Scenario.one_pool 500) Scenario.rm).
  vm_compute. reflexivity.
Defined.

(** C9 as stated fails: a call naming an unknown risk module raises
    [KeyError] at the lookup, before the counter is touched. *)
Lemma new_policy_unknown_module_not_counted :
  fst Scenario.unknown = inl (KeyError "unknown")
  /\ Protocol.policy_count (snd Scenario.unknown)
     <> Protocol.policy_count (Scenario.one_pool 500) + 1.
Proof.
  split; [vm_compute; reflexivity |]. vm_compute. discriminate.
Qed.

(** ** Providers of a pool *)

(** C4 (as amended): for a provider the pool does not track and an amount
    above zero whose product with the realized index is a whole number of
    [WAD]s (any amount while the index is 1), a deposit followed at once
    by the redemption of the same amount returns the amount and leaves the
    three provider-keyed maps as they were before the deposit, without an
    entry for the provider. *)
Theorem deposit_redeem_round_trip
    (now : Z) (provider : string) (amount : Z) (e : EToken.t) :
  EToken.balances e !! provider = None ->
  EToken.indexes e !! provider = None ->
  EToken.timestamps e !! provider = None ->
  0 < amount ->
  0 < projected_index now e ->
  (amount * projected_index now e) mod WAD = 0 ->
  exists e2 : EToken.t,
    round_trip_to now provider amount e e2
    /\ EToken.balances e2 = EToken.balances e
    /\ EToken.indexes e2 = EToken.indexes e
    /\ EToken.timestamps e2 = EToken.timestamps e.
Proof.
  intros Hb Hi Ht Hamount Hindex Hexact.
  set (e1 := EToken.set_timestamps (<[provider := now]> (EToken.timestamps e))
               (EToken.set_indexes (<[provider := projected_index now e]> (EToken.indexes e))
                  (EToken.set_balances (<[provider := 0 + amount]> (EToken.balances e))
                     (realized now e)))).
  assert (EToken.deposit now provider amount e = (inr (0 + amount), e1)) as Hdeposit.
  { unfold EToken.deposit, bind. rewrite update_current_index_eq.
    rewrite balance_of_untracked by exact Hb.
    cbn [get modify]. unfold EToken.getitem.
    cbn [EToken.balances EToken.set_balances EToken.set_indexes EToken.set_timestamps].
    rewrite lookup_insert_eq. reflexivity. }
  assert (projected_index now e1 = projected_index now e) as Hsame
    by (now rewrite (projected_index_same_instant now e1)).
  assert (EToken.balance_of now provider e1 = (inr amount, realized now e1)) as Hbalance.
  { rewrite (balance_of_tracked now provider e1 (0 + amount) (projected_index now e)).
    - rewrite Hsame, Z.add_0_l, scale_round_trip by assumption. reflexivity.
    - apply lookup_insert_eq.
    - apply lookup_insert_eq. }
  assert (exists e2,
            EToken.redeem now provider (Some amount) e1 = (inr amount, e2)
            /\ EToken.balances e2 = delete provider (EToken.balances e)
            /\ EToken.indexes e2 = delete provider (EToken.indexes e)
            /\ EToken.timestamps e2 = delete provider (EToken.timestamps e))
    as (e2 & Hredeem & Hb2 & Hi2 & Ht2).
  { unfold EToken.redeem, bind. rewrite Hbalance.
    destruct (Z.eqb_spec amount 0); [lia |].
    destruct (Z.gtb_spec amount amount); [lia |].
    cbn [get modify]. rewrite update_current_index_eq, Z.eqb_refl.
    unfold EToken.delitem. subst e1.
    repeat (progress
              (cbn [get modify ret realized EToken.balances EToken.indexes
                    EToken.timestamps EToken.set_balances EToken.set_indexes
                    EToken.set_timestamps EToken.set_current_index
                    EToken.set_last_index_update];
               rewrite ?lookup_insert_eq)).
    eexists. split; [reflexivity |].
    cbn [EToken.balances EToken.indexes EToken.timestamps].
    now rewrite !delete_insert_eq. }
  exists e2. rewrite Hb2, Hi2, Ht2, !delete_id by assumption.
  split; [| auto].
  exists (0 + amount), e1. rewrite Hb2, Hi2, Ht2, !lookup_delete_eq. auto.
Qed.

Lemma deposit_redeem_round_trip_witness :
  exists e2 : EToken.t,
    round_trip_to 0 "LP" (Scenario.dollars 100) Scenario.fresh_pool e2
    /\ EToken.balances e2 = EToken.balances Scenario.fresh_pool
    /\ EToken.indexes e2 = EToken.indexes Scenario.fresh_pool
    /\ EToken.timestamps e2 = EToken.timestamps Scenario.fresh_pool.
Proof.
  apply (deposit_redeem_round_trip 0 "LP" (Scenario.dollars 100) Scenario.fresh_pool).
  - reflexivity.
  - reflexivity.
  - reflexivity.
  - reflexivity.
  - reflexivity.
  - reflexivity.
Defined.

(** C4 as stated fails at the amount zero: on a fresh pool the deposit of
    [Wad(0)] tracks the provider, and the redemption of [Wad(0)] that
    follows returns early, the balance being zero, with the three entries
    of the provider still there. *)
Lemma deposit_redeem_zero_leaves_entries :
  ~ exists e2 : EToken.t, round_trip_to 0 "LP" 0 Scenario.fresh_pool e2.
Proof.
  intros (e2 & balance & e1 & Hdeposit & Hredeem & Hb & _).
  vm_compute in Hdeposit. injection Hdeposit as _ <-.
  vm_compute in Hredeem. injection Hredeem as <-.
  vm_compute in Hb. discriminate.
Qed.

(** C10: a provider that is tracked in the three maps of the pool and whose
    visible balance is zero is never removed by [redeem]: whatever the
    amount asked for, the call returns [Wad(0)] and leaves the three maps,
    and so the three entries of the provider, as they were. *)
Theorem redeem_zero_balance_keeps_provider
    (now : Z) (provider : string) (amount : option Z) (e : EToken.t) :
  is_Some (EToken.balances e !! provider) ->
  is_Some (EToken.indexes e !! provider) ->
  is_Some (EToken.timestamps e !! provider) ->
  fst (EToken.balance_of now provider e) = inr 0 ->
  exists e' : EToken.t,
    EToken.redeem now provider amount e = (inr 0, e')
    /\ EToken.balances e' = EToken.balances e
    /\ EToken.indexes e' = EToken.indexes e
    /\ EToken.timestamps e' = EToken.timestamps e
    /\ is_Some (EToken.balances e' !! provider)
    /\ is_Some (EToken.indexes e' !! provider)
    /\ is_Some (EToken.timestamps e' !! provider).
Proof.
  intros Hb Hi Ht Hzero.
  destruct (EToken.balance_of now provider e) as [r e'] eqn:Hbalance.
  cbn [fst] in Hzero. subst r.
  exists e'. apply balance_of_maps in Hbalance as Hmaps.
  destruct Hmaps as (Hb' & Hi' & Ht').
  rewrite Hb', Hi', Ht'. repeat split; try assumption.
  unfold EToken.redeem, bind. rewrite Hbalance. reflexivity.
Qed.

Lemma redeem_zero_balance_keeps_provider_witness :
  exists e' : EToken.t,
    EToken.redeem 0 "LP" (Some (Scenario.dollars 5)) Scenario.idle_provider_pool
    = (inr 0, e')
    /\ EToken.balances e' = EToken.balances Scenario.idle_provider_pool
    /\ EToken.indexes e' = EToken.indexes Scenario.idle_provider_pool
    /\ EToken.timestamps e' = EToken.timestamps Scenario.idle_provider_pool
    /\ is_Some (EToken.balances e' !! "LP")
    /\ is_Some (EToken.indexes e' !! "LP")
    /\ is_Some (EToken.timestamps e' !! "LP").
Proof.
  apply (redeem_zero_balance_keeps_provider 0 "LP" (Some (Scenario.dollars 5))
           Scenario.idle_provider_pool).
  - vm_compute. eexists. reflexivity.
  - vm_compute. eexists. reflexivity.
  - vm_compute. eexists. reflexivity.
  - vm_compute. reflexivity.
Defined.

(** ** The index, the supply and the rates of a pool *)

(** C5, the code at the failing input: locking 100 dollars at 0.10 per year
    and then 300 dollars at 0.20 per year leaves [mcr_interest_rate] at
    [10^9] times the weighted mean 0.175 per year: the second call divides
    the [Ray] sum by [self.mcr], a [Wad], and not by [self.mcr.to_ray()]. *)
Theorem lock_mcr_blended_rate_off_scale :
  Policy.interest_rate Scenario.policy_a = inr (RAY ÷ 10)
  /\ Policy.interest_rate Scenario.policy_b = inr (2 * RAY ÷ 10)
  /\ EToken.lock_mcr 0 Scenario.policy_a (Scenario.dollars 100) Scenario.funded_pool
     = (inr tt, Scenario.backing_pool)
  /\ EToken.mcr_interest_rate Scenario.backing_pool = RAY ÷ 10
  /\ fst Scenario.blended = inr tt
  /\ EToken.mcr (snd Scenario.blended) = Scenario.dollars 400
  /\ EToken.mcr_interest_rate (snd Scenario.blended)
     = (175 * RAY ÷ 1000) * WAD_RAY_RATIO
  /\ EToken.mcr_interest_rate (snd Scenario.blended) <> 175 * RAY ÷ 1000.
Proof.
  repeat split; vm_compute; reflexivity || discriminate.
Qed.

(** C6: right after a call of [lock_mcr] that returns, the token rate of
    the pool is [mcr_interest_rate * mcr / total_supply()], the supply being
    the one [total_supply()] gives on the pool as the call left it. *)
Theorem lock_mcr_token_rate_derivation
    (now : Z) (policy : Policy.t) (mcr_amount : Z) (e e' : EToken.t) :
  EToken.lock_mcr now policy mcr_amount e = (inr tt, e') ->
  exists supply : Z,
    EToken.total_supply now e' = (inr supply, e')
    /\ Ray_floordiv (Ray_mul (EToken.mcr_interest_rate e') (Wad_to_ray (EToken.mcr e')))
                    (Wad_to_ray supply)
       = inr (EToken.token_interest_rate e').
Proof.
  intros Hlock. apply lock_mcr_token_rate in Hlock as [Hsupply Hrate].
  exists (supply_at now e'). split; [apply total_supply_eq |].
  now rewrite Hsupply.
Qed.

Lemma lock_mcr_token_rate_derivation_witness :
  exists supply : Z,
    EToken.total_supply 0 Scenario.backing_pool = (inr supply, Scenario.backing_pool)
    /\ Ray_floordiv (Ray_mul (EToken.mcr_interest_rate Scenario.backing_pool)
                             (Wad_to_ray (EToken.mcr Scenario.backing_pool)))
                    (Wad_to_ray supply)
       = inr (EToken.token_interest_rate Scenario.backing_pool).
Proof.
  apply (lock_mcr_token_rate_derivation 0 Scenario.policy_a (Scenario.dollars 100)
           Scenario.funded_pool Scenario.backing_pool).
  vm_compute. reflexivity.
Defined.



(** The sum [total_supply()] starts from is the sum of the specification:
    nothing for an empty dict, one more term for one more provider. *)
Lemma sum_of_balances_fold (balances : gmap string Z) :
  map_fold (fun _ v acc => acc + v) 0 balances = sum_of_balances balances.
Proof.
  unfold sum_of_balances. rewrite map_fold_foldr.
  induction (map_to_list balances) as [| [provider balance] rest IH];
    cbn [foldr uncurry snd]; [reflexivity |].
  rewrite IH. cbn. lia.
Qed.

Lemma sum_of_balances_empty : sum_of_balances ∅ = 0.
Proof. rewrite <- sum_of_balances_fold. apply map_fold_empty. Qed.

Lemma sum_of_balances_insert (balances : gmap string Z) (provider : string)
    (balance : Z) :
  balances !! provider = None ->
  sum_of_balances (<[provider := balance]> balances)
  = sum_of_balances balances + balance.
Proof.
  intros Hfresh. rewrite <- !sum_of_balances_fold.
  rewrite map_fold_insert_L; [reflexivity | intros; lia | exact Hfresh].
Qed.

(** C8: [total_supply()] only reads the pool: it returns the sum of the
    stored balances, one term per provider, multiplied in [Ray] arithmetic
    by the index projected linearly from [last_index_update] to [now],
    and the pool it leaves is the pool it found, field for field:
    neither [current_index] nor [last_index_update] is written. *)
Theorem total_supply_read_only (now : Z) (e : EToken.t) :
  EToken.total_supply now e
  = (inr (Ray_to_wad
            (Ray_mul (Wad_to_ray (sum_of_balances (EToken.balances e)))
                     (EToken.current_index e
                      + ((EToken.current_index e * (now - EToken.last_index_update e)
                          * EToken.token_interest_rate e) ÷ RAY) ÷ SECONDS_IN_YEAR))),
     e).
Proof.
  rewrite total_supply_eq. unfold supply_at, EToken.base_supply.
  now rewrite sum_of_balances_fold.
Qed.

(** * Further properties of the code *)

(** ** Risk modules and policies *)

(** X1: [RiskModule.build] never raises and converts each integer
    percentage exactly: the fraction is the percentage times [RAY / 100]. *)
Theorem build_exact (name : string) (mcr_percentage premium_share ensuro_share : Z) :
  RiskModule.build name mcr_percentage premium_share ensuro_share
  = inr (RiskModule.mk name (mcr_percentage * (RAY ÷ 100))
                       (premium_share * (RAY ÷ 100))
                       (ensuro_share * (RAY ÷ 100))).
Proof.
  assert (forall n, Ray_floordiv (Ray_from_value n) (Ray_from_value 100)
                    = inr (n * (RAY ÷ 100))) as Hpercent.
  { intros n. rewrite Ray_floordiv_from_value by lia. f_equal.
    unfold Ray_from_value.
    replace (n * RAY) with (n * (RAY ÷ 100) * 100).
    - apply Z.quot_mul. lia.
    - rewrite <- Z.mul_assoc. f_equal. }
  unfold RiskModule.build. now rewrite !Hpercent.
Qed.

(** X2: the capital a policy requires never exceeds what it can lose: with
    [premium <= payout] and a collateral fraction between 0 and 1,
    [0 <= mcr <= payout - premium], with equality on the right when the
    fraction is 1. *)
Theorem policy_mcr_bounds
    (policy_id : Z) (rm : RiskModule.t) (payout premium loss_prob start expiration : Z)
    (parameters : list (string * string)) :
  premium <= payout ->
  0 <= RiskModule.mcr_percentage rm <= RAY ->
  0 <= Policy.mcr (Policy.init policy_id rm payout premium loss_prob start expiration
                               parameters)
    <= payout - premium
  /\ (RiskModule.mcr_percentage rm = RAY ->
      Policy.mcr (Policy.init policy_id rm payout premium loss_prob start expiration
                              parameters)
      = payout - premium).
Proof.
  intros Hpremium [Hlow Hhigh]. cbn [Policy.mcr Policy.init].
  pose proof RAY_pos. pose proof WAD_RAY_RATIO_pos.
  unfold Ray_to_wad, Ray_mul, Wad_to_ray.
  set (d := payout - premium) in *. assert (0 <= d) by (subst d; lia).
  split; [split |].
  - apply Z.quot_pos; [| lia]. apply Z.quot_pos; [| lia]. nia.
  - transitivity ((d * WAD_RAY_RATIO) ÷ WAD_RAY_RATIO).
    + apply Z.quot_le_mono; [lia |].
      transitivity ((d * WAD_RAY_RATIO * RAY) ÷ RAY).
      * apply Z.quot_le_mono; [lia | nia].
      * rewrite Z.quot_mul; lia.
    + rewrite Z.quot_mul; lia.
  - intros ->. rewrite !Z.quot_mul; lia.
Qed.

Lemma policy_mcr_bounds_witness :
  0 <= Policy.mcr Scenario.policy_a <= Scenario.dollars 110 - Scenario.dollars 10
  /\ (RiskModule.mcr_percentage Scenario.rm = RAY ->
      Policy.mcr Scenario.policy_a = Scenario.dollars 110 - Scenario.dollars 10).
Proof.
  apply (policy_mcr_bounds 1 Scenario.rm (Scenario.dollars 110) (Scenario.dollars 10)
           0 0 SECONDS_IN_YEAR []).
  - vm_compute. discriminate.
  - split; vm_compute; discriminate.
Defined.

(** X3: [Policy.interest_rate] raises exactly when the policy has no
    duration or requires no capital, and then it is [ZeroDivisionError]. *)
Theorem interest_rate_raises (policy : Policy.t) :
  (Policy.interest_rate policy = inl ZeroDivisionError
   <-> Policy.expiration policy = Policy.start policy \/ Policy.mcr policy = 0)
  /\ (forall err, Policy.interest_rate policy = inl err -> err = ZeroDivisionError).
Proof.
  unfold Policy.interest_rate, Wad_floordiv. rewrite Wad_mul_from_value.
  destruct (Z.eqb_spec ((Policy.expiration policy - Policy.start policy)
                        * Policy.mcr policy) 0) as [Hzero | Hne]; cbn [res_map].
  - split; [| now intros err [= <-]]. split; [| reflexivity]. intros _. nia.
  - split; [| discriminate]. split; [discriminate |]. intros [Heq | Hmcr]; nia.
Qed.

(** ** Failures of [Protocol.new_policy] *)

(** X4: a call naming a risk module that is not registered raises
    [KeyError] on the name and changes nothing, not even [policy_count]. *)
Theorem new_policy_unregistered_module
    (now : Z) (risk_module_name : string) (payout premium loss_prob expiration : Z)
    (parameters : list (string * string)) (p : Protocol.t) :
  Protocol.risk_modules p !! risk_module_name = None ->
  Protocol.new_policy now risk_module_name payout premium loss_prob expiration
                      parameters p
  = (inl (KeyError risk_module_name), p).
Proof. apply new_policy_unknown. Qed.

Lemma new_policy_unregistered_module_witness :
  Protocol.new_policy 0 "unknown" (Scenario.dollars 200) (Scenario.dollars 100)
                      (RAY ÷ 100) (30 * Scenario.day) [] (Scenario.one_pool 500)
  = (inl (KeyError "unknown"), Scenario.one_pool 500).
Proof.
  apply (new_policy_unregistered_module 0 "unknown" (Scenario.dollars 200)
           (Scenario.dollars 100) (RAY ÷ 100) (30 * Scenario.day) []
           (Scenario.one_pool 500)).
  vm_compute. reflexivity.
Defined.

(** X5: a policy without duration ([expiration = now()]) or without capital
    to lock ([payout = premium]) is not rejected by the interest-rate
    assertion: the call raises [ZeroDivisionError] while it computes the
    rate, after [policy_count] was incremented and before any pool is
    read. *)
Theorem new_policy_division_by_zero
    (now : Z) (risk_module_name : string) (payout premium loss_prob expiration : Z)
    (parameters : list (string * string)) (p : Protocol.t) (rm : RiskModule.t) :
  Protocol.risk_modules p !! risk_module_name = Some rm ->
  expiration = now \/ payout = premium ->
  Protocol.new_policy now risk_module_name payout premium loss_prob expiration
                      parameters p
  = (inl ZeroDivisionError,
     Protocol.set_policy_count (Protocol.policy_count p + 1) p).
Proof.
  intros Hrm Hdegenerate.
  rewrite (new_policy_known _ _ _ _ _ _ _ _ rm Hrm). cbv zeta.
  set (draft := drafted_policy now p rm payout premium loss_prob expiration parameters).
  assert (Policy.interest_rate draft = inl ZeroDivisionError) as ->; [| reflexivity].
  apply interest_rate_raises. subst draft. unfold drafted_policy.
  cbn [Policy.expiration Policy.start Policy.mcr Policy.init].
  destruct Hdegenerate as [-> | ->]; [now left | right].
  rewrite Z.sub_diag. unfold Wad_to_ray. rewrite Z.mul_0_l, Ray_mul_0_l.
  unfold Ray_to_wad. apply Z.quot_0_l. pose proof WAD_RAY_RATIO_pos. lia.
Qed.

Lemma new_policy_division_by_zero_witness :
  Protocol.new_policy 0 "R" (Scenario.dollars 100) (Scenario.dollars 100)
                      (RAY ÷ 100) (30 * Scenario.day) [] (Scenario.one_pool 500)
  = (inl ZeroDivisionError,
     Protocol.set_policy_count (Protocol.policy_count (Scenario.one_pool 500) + 1)
                               (Scenario.one_pool 500)).
Proof.
  apply (new_policy_division_by_zero 0 "R" (Scenario.dollars 100) (Scenario.dollars 100)
           (RAY ÷ 100) (30 * Scenario.day) [] (Scenario.one_pool 500) Scenario.rm).
  - vm_compute. reflexivity.
  - right. reflexivity.
Defined.

(** X6: a policy whose interest rate is not above zero fails the first
    assertion: no pool is read or changed, the policy is not recorded, and
    [policy_count] stays incremented. *)
Theorem new_policy_invalid_policy
    (now : Z) (risk_module_name : string) (payout premium loss_prob expiration : Z)
    (parameters : list (string * string)) (p : Protocol.t) (rm : RiskModule.t)
    (rate : Z) :
  Protocol.risk_modules p !! risk_module_name = Some rm ->
  Policy.interest_rate
    (drafted_policy now p rm payout premium loss_prob expiration parameters)
  = inr rate ->
  rate <= 0 ->
  Protocol.new_policy now risk_module_name payout premium loss_prob expiration
                      parameters p
  = (inl (AssertionError InvalidPolicy),
     Protocol.set_policy_count (Protocol.policy_count p + 1) p).
Proof.
  intros Hrm Hrate Hle.
  rewrite (new_policy_known _ _ _ _ _ _ _ _ rm Hrm). cbv zeta. rewrite Hrate.
  destruct (Z.gtb_spec rate 0); [lia | reflexivity].
Qed.

Lemma new_policy_invalid_policy_witness :
  Protocol.new_policy 0 "R" (Scenario.dollars 1000) (Scenario.dollars 100)
                      RAY (30 * Scenario.day) [] (Scenario.one_pool 500)
  = (inl (AssertionError InvalidPolicy),
     Protocol.set_policy_count (Protocol.policy_count (Scenario.one_pool 500) + 1)
                               (Scenario.one_pool 500)).
Proof.
  apply (new_policy_invalid_policy 0 "R" (Scenario.dollars 1000) (Scenario.dollars 100)
           RAY (30 * Scenario.day) [] (Scenario.one_pool 500) Scenario.rm
           (-12166666666666666666000000000)).
  - vm_compute. reflexivity.
  - vm_compute. reflexivity.
  - vm_compute. discriminate.
Defined.

(** ** Reading and realizing the index *)

Section IndexRealization.

Variable now : Z.

Lemma realized_fixed (e : EToken.t) :
  EToken.last_index_update e = now -> realized now e = e.
Proof.
  intros Hnow. unfold realized. rewrite projected_index_same_instant by exact Hnow.
  destruct e. cbn in *. now subst.
Qed.

Lemma balance_of_state (provider : string) (e : EToken.t) (principal : Z) :
  EToken.balances e !! provider = Some principal ->
  snd (EToken.balance_of now provider e) = realized now e.
Proof.
  intros Hb. unfold EToken.balance_of, bind, get. rewrite Hb.
  rewrite update_current_index_eq. unfold EToken.getitem.
  cbn [realized EToken.set_last_index_update EToken.set_current_index
       EToken.balances EToken.indexes EToken.current_index].
  rewrite Hb. cbn [ret].
  destruct (EToken.indexes e !! provider); cbn [ret raise lift]; [| reflexivity].
  destruct (Ray_floordiv _ _); reflexivity.
Qed.

(** The value of a balance does not depend on whether the index was
    realized before it is read. *)
Lemma balance_of_realized (provider : string) (e : EToken.t) :
  EToken.balance_of now provider (realized now e)
  = (fst (EToken.balance_of now provider e), realized now e).
Proof.
  destruct (EToken.balances e !! provider) as [principal |] eqn:Hb.
  - destruct (EToken.indexes e !! provider) as [index |] eqn:Hi.
    + rewrite (balance_of_tracked now provider (realized now e) principal index),
        (balance_of_tracked now provider e principal index) by assumption.
      rewrite realized_idempotent.
      now rewrite (projected_index_same_instant now (realized now e)).
    + unfold EToken.balance_of, bind, get.
      cbn [realized EToken.set_last_index_update EToken.set_current_index
           EToken.balances]. rewrite Hb.
      rewrite !update_current_index_eq, realized_idempotent. unfold EToken.getitem.
      cbn [realized EToken.set_last_index_update EToken.set_current_index
           EToken.balances EToken.indexes EToken.current_index].
      rewrite Hb, Hi. reflexivity.
  - rewrite !balance_of_untracked; [reflexivity | exact Hb | exact Hb].
Qed.

(** The projected index does not decrease with time. *)
Lemma projected_index_le (e : EToken.t) (later : Z) :
  0 <= EToken.current_index e ->
  0 <= EToken.token_interest_rate e ->
  now <= later ->
  projected_index now e <= projected_index later e.
Proof.
  intros Hindex Hrate Htime.
  unfold projected_index. apply Z.add_le_mono_l.
  apply Z.quot_le_mono; [apply SECONDS_IN_YEAR_pos |].
  apply Z.quot_le_mono; [apply RAY_pos |].
  apply Z.mul_le_mono_nonneg_r; [assumption |].
  apply Z.mul_le_mono_nonneg_l; [assumption | lia].
Qed.

End IndexRealization.

(** X7: realizing the index twice without a time advance is realizing it
    once: the second [_update_current_index] adds no increment. *)
Theorem update_current_index_idempotent (now : Z) (e : EToken.t) :
  (EToken._update_current_index now ;;; EToken._update_current_index now) e
  = EToken._update_current_index now e.
Proof.
  unfold bind. rewrite update_current_index_eq. cbv beta iota.
  now rewrite update_current_index_eq, realized_idempotent.
Qed.

(** X8: [balance_of] is a read that writes: for a provider the pool does
    not track it returns [Wad(0)] and leaves the pool alone, for a tracked
    one it leaves the pool as [_update_current_index] does, whether it
    returns or raises. *)
Theorem balance_of_effect (now : Z) (provider : string) (e : EToken.t) :
  match EToken.balances e !! provider with
  | None => EToken.balance_of now provider e = (inr 0, e)
  | Some _ =>
      snd (EToken.balance_of now provider e) = snd (EToken._update_current_index now e)
  end.
Proof.
  destruct (EToken.balances e !! provider) as [principal |] eqn:Hb.
  - rewrite update_current_index_eq. now apply balance_of_state with principal.
  - now apply balance_of_untracked.
Qed.

(** X9: time only adds to a balance: for a provider with a stored balance
    that is not negative and a positive entry index, in a pool whose index
    and rate are not negative and whose last index update is not after
    [now()], a read of the balance, then [fast_forward_time(secs)] with
    [secs >= 0], then a second read on the pool the first read left: both
    reads return, and the second balance is at least the first. *)
Theorem balance_of_grows_with_time
    (now secs : Z) (provider : string) (e : EToken.t) (principal index : Z) :
  EToken.balances e !! provider = Some principal ->
  EToken.indexes e !! provider = Some index ->
  0 <= principal ->
  0 < index ->
  0 <= EToken.current_index e ->
  0 <= EToken.token_interest_rate e ->
  EToken.last_index_update e <= now ->
  0 <= secs ->
  exists (before later after : Z) (e1 e2 : EToken.t),
    EToken.balance_of now provider e = (inr before, e1)
    /\ Clock.fast_forward_time secs now = (inr later, later)
    /\ EToken.balance_of later provider e1 = (inr after, e2)
    /\ before <= after.
Proof.
  intros Hb Hi Hprincipal Hindex Hci Hrate Hlast Hsecs.
  pose proof RAY_pos. pose proof WAD_RAY_RATIO_pos.
  assert (0 <= projected_index now e) as Hrealized.
  { etransitivity; [exact Hci |].
    rewrite <- (projected_index_same_instant (EToken.last_index_update e) e eq_refl)
      at 1.
    now apply projected_index_le. }
  assert (projected_index now e <= projected_index (now + secs) (realized now e))
    as Hmono.
  { rewrite <- (projected_index_same_instant now (realized now e) eq_refl) at 1.
    apply projected_index_le; [exact Hrealized | exact Hrate | lia]. }
  rewrite (balance_of_tracked now provider e principal index Hb Hi).
  unfold Ray_floordiv at 1. destruct (Z.eqb_spec index 0); [lia |]. cbn [res_map].
  do 5 eexists. split; [reflexivity |]. split; [reflexivity |].
  rewrite (balance_of_tracked (now + secs) provider (realized now e) principal index
             Hb Hi).
  unfold Ray_floordiv. destruct (Z.eqb_spec index 0); [lia |]. cbn [res_map].
  split; [reflexivity |].
  unfold Ray_to_wad, Ray_mul, Wad_to_ray.
  apply Z.quot_le_mono; [lia |]. apply Z.quot_le_mono; [lia |].
  apply Z.mul_le_mono_nonneg_r; [lia |].
  apply Z.quot_le_mono; [lia |].
  apply Z.mul_le_mono_nonneg_l; [nia | exact Hmono].
Qed.

Lemma balance_of_grows_with_time_witness :
  exists (before later after : Z) (e1 e2 : EToken.t),
    EToken.balance_of Scenario.day "LP" Scenario.backing_pool = (inr before, e1)
    /\ Clock.fast_forward_time (30 * Scenario.day) Scenario.day = (inr later, later)
    /\ EToken.balance_of later "LP" e1 = (inr after, e2)
    /\ before <= after.
Proof.
  apply (balance_of_grows_with_time Scenario.day (30 * Scenario.day) "LP"
           Scenario.backing_pool (Scenario.dollars 1000) RAY).
  - vm_compute. reflexivity.
  - vm_compute. reflexivity.
  - vm_compute. discriminate.
  - vm_compute. reflexivity.
  - vm_compute. discriminate.
  - vm_compute. discriminate.
  - vm_compute. discriminate.
  - vm_compute. discriminate.
Defined.

(** ** Deposits and redemptions *)

Section DepositRedeem.

Variable now : Z.
Variable provider : string.

(** What [deposit] leaves behind when the balance could be read. *)
Lemma deposit_eq (amount : Z) (e : EToken.t) (balance : Z) :
  fst (EToken.balance_of now provider e) = inr balance ->
  EToken.deposit now provider amount e
  = (inr (balance + amount),
     EToken.set_timestamps (<[provider := now]> (EToken.timestamps e))
       (EToken.set_indexes (<[provider := projected_index now e]> (EToken.indexes e))
          (EToken.set_balances (<[provider := balance + amount]> (EToken.balances e))
             (realized now e)))).
Proof.
  intros Hbalance. unfold EToken.deposit, bind.
  rewrite update_current_index_eq, balance_of_realized, Hbalance.
  cbn [get modify]. unfold EToken.getitem.
  cbn [EToken.balances EToken.set_balances EToken.set_indexes EToken.set_timestamps].
  rewrite lookup_insert_eq. reflexivity.
Qed.

Lemma deposit_raises (amount : Z) (e : EToken.t) (err : error) :
  fst (EToken.balance_of now provider e) = inl err ->
  EToken.deposit now provider amount e = (inl err, realized now e).
Proof.
  intros Hbalance. unfold EToken.deposit, bind.
  now rewrite update_current_index_eq, balance_of_realized, Hbalance.
Qed.

(** What [redeem] leaves behind when the balance is not zero and the
    provider is in the three dicts. *)
Lemma redeem_eq (amount : option Z) (e : EToken.t) (balance index timestamp : Z) :
  fst (EToken.balance_of now provider e) = inr balance ->
  balance <> 0 ->
  EToken.indexes e !! provider = Some index ->
  EToken.timestamps e !! provider = Some timestamp ->
  EToken.redeem now provider amount e
  = (inr (redeemed amount balance),
     if balance =? redeemed amount balance
     then EToken.set_timestamps (delete provider (EToken.timestamps e))
            (EToken.set_indexes (delete provider (EToken.indexes e))
               (EToken.set_balances (delete provider (EToken.balances e))
                  (realized now e)))
     else EToken.set_timestamps (<[provider := now]> (EToken.timestamps e))
            (EToken.set_indexes
               (<[provider := projected_index now e]> (EToken.indexes e))
               (EToken.set_balances
                  (<[provider := balance - redeemed amount balance]> (EToken.balances e))
                  (realized now e)))).
Proof.
  intros Hbalance Hne Hi Ht.
  destruct (EToken.balances e !! provider) as [principal |] eqn:Hb.
  2:{ rewrite balance_of_untracked in Hbalance by exact Hb. cbn in Hbalance. congruence. }
  pose proof (balance_of_state now provider e principal Hb) as Hstate.
  unfold EToken.redeem, bind.
  destruct (EToken.balance_of now provider e) as [r e1]. cbn [fst snd] in *. subst r e1.
  destruct (Z.eqb_spec balance 0); [contradiction |].
  fold (redeemed amount balance). set (taken := redeemed amount balance).
  cbn [get modify]. rewrite update_current_index_eq.
  rewrite realized_fixed by reflexivity.
  destruct (balance =? taken); unfold EToken.delitem;
    repeat (progress
              (cbn [get modify ret realized EToken.balances EToken.indexes
                    EToken.timestamps EToken.set_balances EToken.set_indexes
                    EToken.set_timestamps EToken.set_current_index
                    EToken.set_last_index_update EToken.current_index];
               rewrite ?lookup_insert_eq, ?Hi, ?Ht)).
  - now rewrite delete_insert_eq.
  - reflexivity.
Qed.


Lemma tracked_alike_lookup (e : EToken.t) (principal : Z) :
  tracked_alike e ->
  EToken.balances e !! provider = Some principal ->
  is_Some (EToken.indexes e !! provider) /\ is_Some (EToken.timestamps e !! provider).
Proof.
  intros [Hi Ht] Hb.
  assert (provider ∈ dom (EToken.balances e)) as Hdom by (apply elem_of_dom; eauto).
  split; apply elem_of_dom; [rewrite <- Hi | rewrite <- Ht]; exact Hdom.
Qed.

Lemma balance_nonzero_tracked (e : EToken.t) (balance : Z) :
  fst (EToken.balance_of now provider e) = inr balance ->
  balance <> 0 ->
  is_Some (EToken.balances e !! provider).
Proof.
  intros Hbalance Hne.
  destruct (EToken.balances e !! provider) eqn:Hb; [eauto |].
  rewrite balance_of_untracked in Hbalance by exact Hb. cbn in Hbalance. congruence.
Qed.

End DepositRedeem.

(** X10: [deposit] re-bases the provider: it returns the balance read just
    before plus the amount, stores that as the new principal with the
    realized index as entry index and [now()] as timestamp, and leaves the
    entries of every other provider, the locked capital and the three
    rates as they were. *)
Theorem deposit_rebases
    (now : Z) (provider : string) (amount : Z) (e : EToken.t) (balance : Z) :
  fst (EToken.balance_of now provider e) = inr balance ->
  exists e' : EToken.t,
    EToken.deposit now provider amount e = (inr (balance + amount), e')
    /\ EToken.balances e' !! provider = Some (balance + amount)
    /\ EToken.indexes e' !! provider = Some (EToken.current_index e')
    /\ EToken.current_index e' = projected_index now e
    /\ EToken.timestamps e' !! provider = Some now
    /\ (forall other, other <> provider ->
          EToken.balances e' !! other = EToken.balances e !! other
          /\ EToken.indexes e' !! other = EToken.indexes e !! other
          /\ EToken.timestamps e' !! other = EToken.timestamps e !! other)
    /\ EToken.mcr e' = EToken.mcr e
    /\ EToken.mcr_interest_rate e' = EToken.mcr_interest_rate e
    /\ EToken.token_interest_rate e' = EToken.token_interest_rate e.
Proof.
  intros Hbalance. eexists. split; [now apply deposit_eq |].
  cbn [EToken.balances EToken.indexes EToken.timestamps EToken.current_index
       EToken.mcr EToken.mcr_interest_rate EToken.token_interest_rate realized
       EToken.set_balances EToken.set_indexes EToken.set_timestamps
       EToken.set_current_index EToken.set_last_index_update].
  rewrite !lookup_insert_eq. repeat split; try reflexivity;
    now apply lookup_insert_ne.
Qed.

(** X11: [deposit] keeps the three dicts on the same providers, whether it
    returns or raises. *)
Theorem deposit_keeps_tracked_alike
    (now : Z) (provider : string) (amount : Z) (e e' : EToken.t) (r : result Z) :
  EToken.deposit now provider amount e = (r, e') ->
  tracked_alike e ->
  tracked_alike e'.
Proof.
  intros Hdeposit [Hi Ht].
  destruct (fst (EToken.balance_of now provider e)) as [err | balance] eqn:Hbalance.
  - rewrite (deposit_raises now provider amount e err Hbalance) in Hdeposit.
    injection Hdeposit as _ <-. now split.
  - rewrite (deposit_eq now provider amount e balance Hbalance) in Hdeposit.
    injection Hdeposit as _ <-. unfold tracked_alike.
    cbn [EToken.balances EToken.indexes EToken.timestamps realized
         EToken.set_balances EToken.set_indexes EToken.set_timestamps
         EToken.set_current_index EToken.set_last_index_update].
    rewrite !dom_insert_L, <- Hi, <- Ht. auto.
Qed.


(** X13: [redeem] pays the smaller of the amount asked for and the balance,
    the whole balance when no amount is given, and nothing when the
    balance is zero; it never pays more than the balance. *)
Theorem redeem_pays_at_most_balance
    (now : Z) (provider : string) (amount : option Z) (e : EToken.t) (balance : Z) :
  tracked_alike e ->
  fst (EToken.balance_of now provider e) = inr balance ->
  fst (EToken.redeem now provider amount e)
  = inr (if balance =? 0 then 0
         else match amount with
              | None => balance
              | Some a => Z.min a balance
              end).
Proof.
  intros Halike Hbalance.
  destruct (Z.eqb_spec balance 0) as [-> | Hne].
  - unfold EToken.redeem, bind.
    destruct (EToken.balance_of now provider e) as [r e1]. cbn [fst] in Hbalance.
    now subst r.
  - destruct (balance_nonzero_tracked now provider e balance Hbalance Hne)
      as [principal Hb].
    destruct (tracked_alike_lookup provider e principal Halike Hb)
      as [[index Hi] [timestamp Ht]].
    rewrite (redeem_eq now provider amount e balance index timestamp Hbalance Hne Hi Ht).
    cbn [fst]. f_equal. unfold redeemed. destruct amount as [a |]; [| reflexivity].
    destruct (Z.gtb_spec a balance); lia.
Qed.

(** X14: [redeem] never touches the locked capital nor the rates of the
    pool, nor the entries of another provider: the capital a pool has
    locked is not looked at when a provider takes money out. *)
Theorem redeem_frame
    (now : Z) (provider : string) (amount : option Z) (e e' : EToken.t)
    (r : result Z) :
  EToken.redeem now provider amount e = (r, e') ->
  tracked_alike e ->
  EToken.mcr e' = EToken.mcr e
  /\ EToken.mcr_interest_rate e' = EToken.mcr_interest_rate e
  /\ EToken.token_interest_rate e' = EToken.token_interest_rate e
  /\ (forall other, other <> provider ->
        EToken.balances e' !! other = EToken.balances e !! other
        /\ EToken.indexes e' !! other = EToken.indexes e !! other
        /\ EToken.timestamps e' !! other = EToken.timestamps e !! other).
Proof.
  intros Hredeem Halike.
  assert (forall e1, e1 = e \/ e1 = realized now e ->
            EToken.mcr e1 = EToken.mcr e
            /\ EToken.mcr_interest_rate e1 = EToken.mcr_interest_rate e
            /\ EToken.token_interest_rate e1 = EToken.token_interest_rate e
            /\ (forall other, other <> provider ->
                  EToken.balances e1 !! other = EToken.balances e !! other
                  /\ EToken.indexes e1 !! other = EToken.indexes e !! other
                  /\ EToken.timestamps e1 !! other = EToken.timestamps e !! other))
    as Hread.
  { intros e1 [-> | ->]; repeat split; reflexivity. }
  assert (snd (EToken.balance_of now provider e) = e
          \/ snd (EToken.balance_of now provider e) = realized now e) as Hstate.
  { destruct (EToken.balances e !! provider) as [principal |] eqn:Hb.
    - right. now apply balance_of_state with principal.
    - left. now rewrite balance_of_untracked. }
  destruct (EToken.balance_of now provider e) as [[err | balance] e1] eqn:Hbalance;
    cbn [snd] in Hstate.
  - unfold EToken.redeem, bind in Hredeem. rewrite Hbalance in Hredeem.
    injection Hredeem as _ <-. now apply Hread.
  - destruct (Z.eq_dec balance 0) as [-> | Hne].
    + unfold EToken.redeem, bind in Hredeem. rewrite Hbalance in Hredeem.
      injection Hredeem as _ <-. now apply Hread.
    + assert (fst (EToken.balance_of now provider e) = inr balance) as Hfst
        by now rewrite Hbalance.
      destruct (balance_nonzero_tracked now provider e balance Hfst Hne) as [principal Hb].
      destruct (tracked_alike_lookup provider e principal Halike Hb)
        as [[index Hi] [timestamp Ht]].
      rewrite (redeem_eq now provider amount e balance index timestamp Hfst Hne Hi Ht)
        in Hredeem.
      injection Hredeem as _ <-.
      destruct (balance =? redeemed amount balance);
        cbn [EToken.balances EToken.indexes EToken.timestamps realized
             EToken.mcr EToken.mcr_interest_rate EToken.token_interest_rate
             EToken.set_balances EToken.set_indexes EToken.set_timestamps
             EToken.set_current_index EToken.set_last_index_update];
        repeat split; try reflexivity;
        (now apply lookup_delete_ne) || (now apply lookup_insert_ne).
Qed.

Lemma deposit_rebases_witness :
  exists e' : EToken.t,
    EToken.deposit Scenario.day "LP" (Scenario.dollars 50) Scenario.backing_pool
    = (inr (1000027397260273972602 + Scenario.dollars 50), e')
    /\ EToken.balances e' !! "LP" = Some (1000027397260273972602 + Scenario.dollars 50)
    /\ EToken.indexes e' !! "LP" = Some (EToken.current_index e')
    /\ EToken.current_index e' = projected_index Scenario.day Scenario.backing_pool
    /\ EToken.timestamps e' !! "LP" = Some Scenario.day
    /\ (forall other, other <> "LP" ->
          EToken.balances e' !! other = EToken.balances Scenario.backing_pool !! other
          /\ EToken.indexes e' !! other = EToken.indexes Scenario.backing_pool !! other
          /\ EToken.timestamps e' !! other
             = EToken.timestamps Scenario.backing_pool !! other)
    /\ EToken.mcr e' = EToken.mcr Scenario.backing_pool
    /\ EToken.mcr_interest_rate e' = EToken.mcr_interest_rate Scenario.backing_pool
    /\ EToken.token_interest_rate e' = EToken.token_interest_rate Scenario.backing_pool.
Proof.
  apply (deposit_rebases Scenario.day "LP" (Scenario.dollars 50) Scenario.backing_pool
           1000027397260273972602).
  vm_compute. reflexivity.
Defined.

Lemma deposit_keeps_tracked_alike_witness : tracked_alike Scenario.funded_pool.
Proof.
  apply (deposit_keeps_tracked_alike 0 "LP" (Scenario.dollars 1000) Scenario.fresh_pool
           Scenario.funded_pool (inr (Scenario.dollars 1000))).
  - vm_compute. reflexivity.
  - split; reflexivity.
Defined.


Lemma redeem_pays_at_most_balance_witness :
  fst (EToken.redeem 0 "LP" (Some (Scenario.dollars 1500)) Scenario.funded_pool)
  = inr (if Scenario.dollars 1000 =? 0 then 0
         else Z.min (Scenario.dollars 1500) (Scenario.dollars 1000)).
Proof.
  apply (redeem_pays_at_most_balance 0 "LP" (Some (Scenario.dollars 1500))
           Scenario.funded_pool (Scenario.dollars 1000)).
  - split; vm_compute; reflexivity.
  - vm_compute. reflexivity.
Defined.

Lemma redeem_frame_witness :
  EToken.mcr (snd (EToken.redeem 0 "LP" None Scenario.backing_pool))
  = EToken.mcr Scenario.backing_pool
  /\ EToken.mcr_interest_rate (snd (EToken.redeem 0 "LP" None Scenario.backing_pool))
     = EToken.mcr_interest_rate Scenario.backing_pool
  /\ EToken.token_interest_rate (snd (EToken.redeem 0 "LP" None Scenario.backing_pool))
     = EToken.token_interest_rate Scenario.backing_pool
  /\ (forall other, other <> "LP" ->
        EToken.balances (snd (EToken.redeem 0 "LP" None Scenario.backing_pool)) !! other
        = EToken.balances Scenario.backing_pool !! other
        /\ EToken.indexes (snd (EToken.redeem 0 "LP" None Scenario.backing_pool)) !! other
           = EToken.indexes Scenario.backing_pool !! other
        /\ EToken.timestamps (snd (EToken.redeem 0 "LP" None Scenario.backing_pool))
             !! other
           = EToken.timestamps Scenario.backing_pool !! other).
Proof.
  apply (redeem_frame 0 "LP" None Scenario.backing_pool
           (snd (EToken.redeem 0 "LP" None Scenario.backing_pool))
           (fst (EToken.redeem 0 "LP" None Scenario.backing_pool))).
  - destruct (EToken.redeem 0 "LP" None Scenario.backing_pool). reflexivity.
  - split; vm_compute; reflexivity.
Defined.

(** ** Locking capital *)

(** X15: asking a pool to lock more than its ocean fails the assertion of
    [lock_mcr] before anything is written: the pool is left as it was,
    with its index not realized. *)
Theorem lock_mcr_over_ocean
    (now : Z) (policy : Policy.t) (mcr_amount : Z) (e : EToken.t) (free : Z) :
  fst (EToken.ocean now e) = inr free ->
  free < mcr_amount ->
  EToken.lock_mcr now policy mcr_amount e = (inl (AssertionError InsufficientOcean), e).
Proof.
  rewrite ocean_eq. cbn [fst]. intros [= <-] Hover.
  unfold EToken.lock_mcr, bind. rewrite total_supply_eq. cbn [get].
  unfold ocean_at in Hover. unfold assert_.
  destruct (Z.leb_spec mcr_amount (supply_at now e - EToken.mcr e)); [lia | reflexivity].
Qed.

Lemma lock_mcr_over_ocean_witness :
  EToken.lock_mcr 0 Scenario.policy_a (Scenario.dollars 1001) Scenario.funded_pool
  = (inl (AssertionError InsufficientOcean), Scenario.funded_pool).
Proof.
  apply (lock_mcr_over_ocean 0 Scenario.policy_a (Scenario.dollars 1001)
           Scenario.funded_pool (Scenario.dollars 1000)).
  - vm_compute. reflexivity.
  - vm_compute. reflexivity.
Defined.

(** What a call of [lock_mcr] that returns has done to the pool. *)
Lemma lock_mcr_returns (now : Z) (policy : Policy.t) (mcr_amount : Z) (e e' : EToken.t) :
  EToken.lock_mcr now policy mcr_amount e = (inr tt, e') ->
  mcr_amount <= ocean_at now e
  /\ EToken.mcr e' = EToken.mcr e + mcr_amount
  /\ EToken.balances e' = EToken.balances e
  /\ EToken.indexes e' = EToken.indexes e
  /\ EToken.timestamps e' = EToken.timestamps e
  /\ (EToken.mcr e = 0 -> Policy.interest_rate policy = inr (EToken.mcr_interest_rate e')).
Proof.
  unfold EToken.lock_mcr, bind. rewrite total_supply_eq. cbn [get].
  unfold assert_, ocean_at.
  destruct (Z.leb_spec mcr_amount (supply_at now e - EToken.mcr e)) as [Hle |];
    cbn [ret raise]; [| discriminate].
  rewrite update_current_index_eq. cbn [get].
  change (EToken.mcr (realized now e)) with (EToken.mcr e).
  destruct (Z.eqb_spec (EToken.mcr e) 0) as [Hzero | Hne]; cbn [modify lift];
    destruct (Policy.interest_rate policy) as [err | rate]; try discriminate.
  - cbn [modify].
    destruct (Ray_floordiv _ _) as [err | q]; [discriminate |].
    intros [= <-]. cbn. repeat split; try reflexivity; [lia | lia].
  - destruct (Ray_floordiv _ (EToken.mcr _)) as [err | blended]; [discriminate |].
    cbn [modify].
    destruct (Ray_floordiv _ _) as [err | q]; [discriminate |].
    intros [= <-]. cbn. repeat split; try reflexivity; [lia | contradiction].
Qed.

(** X16: a call of [lock_mcr] that returns adds exactly the amount to the
    locked capital, leaves the deposits alone, and takes exactly the amount
    out of the ocean, which stays at or above zero: a pool never locks
    capital it does not have. *)
Theorem lock_mcr_takes_from_ocean
    (now : Z) (policy : Policy.t) (mcr_amount : Z) (e e' : EToken.t) :
  EToken.lock_mcr now policy mcr_amount e = (inr tt, e') ->
  exists free : Z,
    EToken.ocean now e = (inr free, e)
    /\ EToken.ocean now e' = (inr (free - mcr_amount), e')
    /\ 0 <= free - mcr_amount
    /\ EToken.mcr e' = EToken.mcr e + mcr_amount
    /\ EToken.balances e' = EToken.balances e
    /\ EToken.indexes e' = EToken.indexes e
    /\ EToken.timestamps e' = EToken.timestamps e.
Proof.
  intros Hlock.
  pose proof (lock_mcr_token_rate now policy mcr_amount e e' Hlock) as [Hsupply _].
  apply lock_mcr_returns in Hlock as (Hle & Hmcr & Hb & Hi & Ht & _).
  exists (ocean_at now e). rewrite !ocean_eq.
  repeat split; try assumption; [| lia].
  f_equal. f_equal. unfold ocean_at. rewrite Hsupply, Hmcr. lia.
Qed.

Lemma lock_mcr_takes_from_ocean_witness :
  exists free : Z,
    EToken.ocean 0 Scenario.funded_pool = (inr free, Scenario.funded_pool)
    /\ EToken.ocean 0 Scenario.backing_pool
       = (inr (free - Scenario.dollars 100), Scenario.backing_pool)
    /\ 0 <= free - Scenario.dollars 100
    /\ EToken.mcr Scenario.backing_pool
       = EToken.mcr Scenario.funded_pool + Scenario.dollars 100
    /\ EToken.balances Scenario.backing_pool = EToken.balances Scenario.funded_pool
    /\ EToken.indexes Scenario.backing_pool = EToken.indexes Scenario.funded_pool
    /\ EToken.timestamps Scenario.backing_pool = EToken.timestamps Scenario.funded_pool.
Proof.
  apply (lock_mcr_takes_from_ocean 0 Scenario.policy_a (Scenario.dollars 100)
           Scenario.funded_pool Scenario.backing_pool).
  vm_compute. reflexivity.
Defined.

(** X17: the first capital a pool locks brings its rate with it: when the
    pool had nothing locked, a call of [lock_mcr] that returns leaves
    [mcr_interest_rate] at the interest rate of the policy. *)
Theorem lock_mcr_first_rate
    (now : Z) (policy : Policy.t) (mcr_amount : Z) (e e' : EToken.t) :
  EToken.mcr e = 0 ->
  EToken.lock_mcr now policy mcr_amount e = (inr tt, e') ->
  Policy.interest_rate policy = inr (EToken.mcr_interest_rate e')
  /\ EToken.mcr e' = mcr_amount.
Proof.
  intros Hzero Hlock.
  apply lock_mcr_returns in Hlock as (_ & Hmcr & _ & _ & _ & Hrate).
  split; [now apply Hrate | lia].
Qed.

Lemma lock_mcr_first_rate_witness :
  Policy.interest_rate Scenario.policy_a
  = inr (EToken.mcr_interest_rate Scenario.backing_pool)
  /\ EToken.mcr Scenario.backing_pool = Scenario.dollars 100.
Proof.
  apply (lock_mcr_first_rate 0 Scenario.policy_a (Scenario.dollars 100)
           Scenario.funded_pool Scenario.backing_pool).
  - reflexivity.
  - vm_compute. reflexivity.
Defined.

(** X18: a pool without supply cannot lock anything, not even an amount of
    zero: [lock_mcr] then fails its assertion or raises
    [ZeroDivisionError] when it derives the token rate. *)
Theorem lock_mcr_needs_supply
    (now : Z) (policy : Policy.t) (mcr_amount : Z) (e : EToken.t) :
  fst (EToken.total_supply now e) = inr 0 ->
  fst (EToken.lock_mcr now policy mcr_amount e) <> inr tt.
Proof.
  rewrite total_supply_eq. cbn [fst]. intros [= Hsupply] Hlock.
  destruct (EToken.lock_mcr now policy mcr_amount e) as [r e'] eqn:Hcall.
  cbn [fst] in Hlock. subst r.
  apply lock_mcr_token_rate in Hcall as [_ Hrate].
  rewrite Hsupply in Hrate. apply Ray_floordiv_inr in Hrate as [Hne _].
  now apply Hne.
Qed.

Lemma lock_mcr_needs_supply_witness :
  fst (EToken.lock_mcr 0 Scenario.policy_a 0 Scenario.fresh_pool) <> inr tt.
Proof.
  apply (lock_mcr_needs_supply 0 Scenario.policy_a 0 Scenario.fresh_pool).
  vm_compute. reflexivity.
Defined.

(** ** The registries of the coordinator *)

Section Registries.

Context {V : Type}.

Lemma get_set_item (k k' : string) (v : V) (d : list (string * V)) :
  Dict.get_item k' (Dict.set_item k v d)
  = if String.eqb k' k then Some v else Dict.get_item k' d.
Proof.
  induction d as [| [k0 v0] d IH]; cbn [Dict.set_item Dict.get_item].
  - reflexivity.
  - destruct (String.eqb_spec k k0) as [-> | Hne]; cbn [Dict.get_item].
    + now destruct (String.eqb k' k0).
    + rewrite IH. destruct (String.eqb_spec k' k0) as [-> | Hne'];
        [| reflexivity].
      destruct (String.eqb_spec k0 k); [congruence | reflexivity].
Qed.

Lemma keys_set_item (k : string) (v : V) (d : list (string * V)) :
  map fst (Dict.set_item k v d)
  = match Dict.get_item k d with
    | Some _ => map fst d
    | None => map fst d ++ [k]
    end.
Proof.
  induction d as [| [k0 v0] d IH]; cbn [Dict.set_item Dict.get_item map fst app].
  - reflexivity.
  - destruct (String.eqb_spec k k0) as [-> | Hne]; cbn [map fst]; [reflexivity |].
    rewrite IH. now destruct (Dict.get_item k d).
Qed.

End Registries.

(** A method call on a pool leaves the names and the order of the pools as
    they were. *)
Lemma on_etoken_keys {A} (key : string) (method : M EToken.t A) (p p' : Protocol.t)
    (r : result A) :
  Protocol.on_etoken key method p = (r, p') ->
  map fst (Protocol.etokens p') = map fst (Protocol.etokens p).
Proof.
  unfold Protocol.on_etoken.
  destruct (Dict.get_item key (Protocol.etokens p)) as [etk |] eqn:Hget.
  - destruct (method etk) as [r' etk']. intros [= _ <-].
    cbn [Protocol.etokens Protocol.set_etokens]. now rewrite keys_set_item, Hget.
  - now intros [= _ <-].
Qed.

Lemma lock_funds_keeps (now ocean size : Z) (items : list (string * Z)) :
  forall (index : Z) (policy : Policy.t) (mcr_not_locked : Z) (p : Protocol.t)
         (r : result Policy.t) (p' : Protocol.t),
    Protocol.lock_funds now ocean size index items policy mcr_not_locked p = (r, p') ->
    map fst (Protocol.etokens p') = map fst (Protocol.etokens p)
    /\ (forall policy', r = inr policy' ->
          Policy.policy_id policy' = Policy.policy_id policy).
Proof.
  induction items as [| [token_name ocean_token] rest IH];
    intros index policy mnl p r p'; cbn [Protocol.lock_funds].
  - intros [= <- <-]. split; [reflexivity |]. now intros policy' [= <-].
  - cbv zeta. unfold bind at 1.
    pose proof (mcr_for_token_state (index <? size - 1)
                  (Wad_floordiv (Wad_mul (Policy.mcr policy) ocean_token) ocean)
                  mnl p) as Hstate.
    destruct (_ p) as [[err | amount] p1] in Hstate |- *;
      cbn [snd] in Hstate; subst p1.
    + intros [= <- <-]. split; [reflexivity | discriminate].
    + unfold bind at 1.
      destruct (Protocol.on_etoken _ _ p) as [[err | []] p2] eqn:Hlock;
        apply on_etoken_keys in Hlock.
      * intros [= <- <-]. split; [exact Hlock | discriminate].
      * intros Hrest. apply IH in Hrest as [Hkeys Hid]. split; [congruence |].
        intros policy' Hr. now rewrite (Hid policy' Hr).
Qed.

(** X19: [add_etoken] registers the pool under its name: the name now
    looks up the pool, every other name looks up what it did, a name that
    was already registered keeps its place in the order and a new one goes
    last; nothing else of the coordinator changes. *)
Theorem add_etoken_registers (etoken : EToken.t) (p : Protocol.t) :
  exists p' : Protocol.t,
    Protocol.add_etoken etoken p = (inr tt, p')
    /\ (forall key,
          Dict.get_item key (Protocol.etokens p')
          = if String.eqb key (EToken.name etoken) then Some etoken
            else Dict.get_item key (Protocol.etokens p))
    /\ map fst (Protocol.etokens p')
       = match Dict.get_item (EToken.name etoken) (Protocol.etokens p) with
         | Some _ => map fst (Protocol.etokens p)
         | None => map fst (Protocol.etokens p) ++ [EToken.name etoken]
         end
    /\ Protocol.risk_modules p' = Protocol.risk_modules p
    /\ Protocol.policies p' = Protocol.policies p
    /\ Protocol.policy_count p' = Protocol.policy_count p.
Proof.
  eexists. split; [reflexivity |].
  cbn [Protocol.etokens Protocol.set_etokens Protocol.risk_modules Protocol.policies
       Protocol.policy_count].
  split; [intros key; apply get_set_item |].
  split; [apply keys_set_item | auto].
Qed.

(** X20: [Protocol.deposit] on a name that is not registered raises
    [KeyError] and changes nothing; on a registered name it is the deposit
    of that pool, with every other pool, the order of the pools and the
    rest of the coordinator left as they were. *)
Theorem protocol_deposit_routes
    (now : Z) (etoken provider : string) (amount : Z) (p : Protocol.t) :
  match Dict.get_item etoken (Protocol.etokens p) with
  | None =>
      Protocol.deposit now etoken provider amount p = (inl (KeyError etoken), p)
  | Some etk =>
      exists p' : Protocol.t,
        Protocol.deposit now etoken provider amount p
        = (fst (EToken.deposit now provider amount etk), p')
        /\ (forall key,
              Dict.get_item key (Protocol.etokens p')
              = if String.eqb key etoken
                then Some (snd (EToken.deposit now provider amount etk))
                else Dict.get_item key (Protocol.etokens p))
        /\ map fst (Protocol.etokens p') = map fst (Protocol.etokens p)
        /\ Protocol.risk_modules p' = Protocol.risk_modules p
        /\ Protocol.policies p' = Protocol.policies p
        /\ Protocol.policy_count p' = Protocol.policy_count p
  end.
Proof.
  unfold Protocol.deposit, Protocol.on_etoken.
  destruct (Dict.get_item etoken (Protocol.etokens p)) as [etk |] eqn:Hget;
    [| reflexivity].
  destruct (EToken.deposit now provider amount etk) as [r etk'].
  eexists. split; [reflexivity |].
  cbn [Protocol.etokens Protocol.set_etokens Protocol.risk_modules Protocol.policies
       Protocol.policy_count snd].
  split; [intros key; apply get_set_item |].
  split; [now rewrite keys_set_item, Hget | auto].
Qed.

(** ** Issuing policies *)

(** X21: [new_policy] neither registers nor removes a pool or a risk
    module, whatever its outcome: the risk modules, the names of the pools
    and their order are left as they were, and a call that raises leaves
    the list of policies as it was. *)
Theorem new_policy_keeps_registries
    (now : Z) (risk_module_name : string) (payout premium loss_prob expiration : Z)
    (parameters : list (string * string)) (p p' : Protocol.t) (r : result Policy.t) :
  Protocol.new_policy now risk_module_name payout premium loss_prob expiration
                      parameters p = (r, p') ->
  Protocol.risk_modules p' = Protocol.risk_modules p
  /\ map fst (Protocol.etokens p') = map fst (Protocol.etokens p)
  /\ (forall err, r = inl err -> Protocol.policies p' = Protocol.policies p).
Proof.
  intros Hcall.
  destruct (Protocol.risk_modules p !! risk_module_name) as [rm |] eqn:Hrm.
  2:{ rewrite new_policy_unknown in Hcall by exact Hrm. now injection Hcall as <- <-. }
  rewrite (new_policy_known _ _ _ _ _ _ _ _ rm Hrm) in Hcall. cbv zeta in Hcall.
  destruct (Policy.interest_rate _) as [err | rate];
    [now injection Hcall as <- <- |].
  destruct (rate >? 0); [| now injection Hcall as <- <-].
  destruct (_ >=? _); [| now injection Hcall as <- <-].
  destruct (Protocol.lock_funds _ _ _ _ _ _ _ _) as [[err | issued] p2] eqn:Hlock;
    pose proof (lock_funds_frame _ _ _ _ _ _ _ _ _ _ Hlock) as (_ & Hpolicies & Hmodules);
    apply lock_funds_keeps in Hlock as [Hkeys _];
    injection Hcall as <- <-;
    cbn [Protocol.risk_modules Protocol.etokens Protocol.policies
         Protocol.set_policies Protocol.set_policy_count] in *.
  - auto.
  - repeat split; [assumption | assumption | discriminate].
Qed.

Lemma new_policy_keeps_registries_witness :
  Protocol.risk_modules (snd (Scenario.sell 200 Scenario.two_pools))
  = Protocol.risk_modules Scenario.two_pools
  /\ map fst (Protocol.etokens (snd (Scenario.sell 200 Scenario.two_pools)))
     = map fst (Protocol.etokens Scenario.two_pools)
  /\ (forall err, fst (Scenario.sell 200 Scenario.two_pools) = inl err ->
        Protocol.policies (snd (Scenario.sell 200 Scenario.two_pools))
        = Protocol.policies Scenario.two_pools).
Proof.
  apply (new_policy_keeps_registries 0 "R" (Scenario.dollars 200) (Scenario.dollars 100)
           (RAY ÷ 100) (30 * Scenario.day) [] Scenario.two_pools).
  unfold Scenario.sell.
  destruct (Protocol.new_policy 0 "R" (Scenario.dollars 200) (Scenario.dollars 100)
              (RAY ÷ 100) (30 * Scenario.day) [] Scenario.two_pools).
  reflexivity.
Defined.

(** X22: identifiers are never reused: if no recorded policy has an
    identifier above [policy_count], the same holds after [new_policy],
    and a policy it issues is appended to the list with the new
    [policy_count] as identifier, above the identifier of every policy
    recorded before. *)
Theorem new_policy_fresh_id
    (now : Z) (risk_module_name : string) (payout premium loss_prob expiration : Z)
    (parameters : list (string * string)) (p p' : Protocol.t) (r : result Policy.t) :
  Protocol.new_policy now risk_module_name payout premium loss_prob expiration
                      parameters p = (r, p') ->
  ids_bounded p ->
  ids_bounded p'
  /\ (forall policy, r = inr policy ->
        Policy.policy_id policy = Protocol.policy_count p'
        /\ Protocol.policies p' = Protocol.policies p ++ [policy]
        /\ Forall (fun earlier => Policy.policy_id earlier < Policy.policy_id policy)
                  (Protocol.policies p)).
Proof.
  unfold ids_bounded. intros Hcall Hbounded.
  assert (Forall (fun policy => Policy.policy_id policy <= Protocol.policy_count p + 1)
                 (Protocol.policies p)) as Hnext.
  { eapply Forall_impl; [exact Hbounded |]. cbn. intros; lia. }
  destruct (Protocol.risk_modules p !! risk_module_name) as [rm |] eqn:Hrm.
  2:{ rewrite new_policy_unknown in Hcall by exact Hrm. injection Hcall as <- <-.
      split; [exact Hbounded | discriminate]. }
  rewrite (new_policy_known _ _ _ _ _ _ _ _ rm Hrm) in Hcall. cbv zeta in Hcall.
  destruct (Policy.interest_rate _) as [err | rate];
    [injection Hcall as <- <-; split; [exact Hnext | discriminate] |].
  destruct (rate >? 0);
    [| injection Hcall as <- <-; split; [exact Hnext | discriminate]].
  destruct (_ >=? _);
    [| injection Hcall as <- <-; split; [exact Hnext | discriminate]].
  destruct (Protocol.lock_funds _ _ _ _ _ _ _ _) as [[err | issued] p2] eqn:Hlock;
    pose proof (lock_funds_frame _ _ _ _ _ _ _ _ _ _ Hlock) as (Hcount & Hpolicies & _);
    apply lock_funds_keeps in Hlock as [_ Hid];
    injection Hcall as <- <-;
    cbn [Protocol.policies Protocol.policy_count Protocol.set_policies
         Protocol.set_policy_count] in *.
  - rewrite Hcount, Hpolicies. split; [exact Hnext | discriminate].
  - specialize (Hid issued eq_refl). cbn in Hid.
    rewrite Hcount, Hpolicies. split.
    + apply Forall_app. split; [exact Hnext |]. apply Forall_singleton. lia.
    + intros policy [= <-]. repeat split; [lia |].
      eapply Forall_impl; [exact Hbounded |]. cbn. intros; lia.
Qed.

Lemma new_policy_fresh_id_witness :
  ids_bounded (snd Scenario.accepted)
  /\ (forall policy, fst Scenario.accepted = inr policy ->
        Policy.policy_id policy = Protocol.policy_count (snd Scenario.accepted)
        /\ Protocol.policies (snd Scenario.accepted)
           = Protocol.policies (snd Scenario.rejected) ++ [policy]
        /\ Forall (fun earlier => Policy.policy_id earlier < Policy.policy_id policy)
                  (Protocol.policies (snd Scenario.rejected))).
Proof.
  apply (new_policy_fresh_id 0 "R" (Scenario.dollars 200) (Scenario.dollars 100)
           (RAY ÷ 100) (30 * Scenario.day) [] (snd Scenario.rejected)).
  - unfold Scenario.accepted, Scenario.sell.
    destruct (Protocol.new_policy 0 "R" (Scenario.dollars 200) (Scenario.dollars 100)
                (RAY ÷ 100) (30 * Scenario.day) [] (snd Scenario.rejected)).
    reflexivity.
  - unfold ids_bounded. vm_compute. constructor.
Defined.

(** ** Capital locked in the pools *)

Lemma set_item_total_locked (key : string) (etk etk' : EToken.t)
    (d : list (string * EToken.t)) :
  Dict.get_item key d = Some etk ->
  total_locked (Dict.set_item key etk' d)
  = total_locked d + (EToken.mcr etk' - EToken.mcr etk).
Proof.
  unfold total_locked.
  induction d as [| [k0 v0] d IH]; cbn [Dict.get_item Dict.set_item]; [discriminate |].
  destruct (String.eqb key k0); cbn [foldr snd].
  - intros [= ->]. lia.
  - intros Hget. rewrite (IH Hget). lia.
Qed.

Lemma lock_funds_total_locked (now ocean size : Z) (items : list (string * Z)) :
  forall (index : Z) (policy : Policy.t) (mcr_not_locked : Z) (p : Protocol.t)
         (policy' : Policy.t) (p' : Protocol.t),
    Protocol.lock_funds now ocean size index items policy mcr_not_locked p
      = (inr policy', p') ->
    exists allocations,
      Policy.locked_funds policy' = Policy.locked_funds policy ++ allocations
      /\ total_locked (Protocol.etokens p')
         = total_locked (Protocol.etokens p) + sum_amounts allocations.
Proof.
  induction items as [| [token_name ocean_token] rest IH];
    intros index policy mnl p policy' p'; cbn [Protocol.lock_funds].
  - intros [= <- <-]. exists []. rewrite app_nil_r. cbn. split; [reflexivity | lia].
  - cbv zeta. unfold bind at 1.
    pose proof (mcr_for_token_state (index <? size - 1)
                  (Wad_floordiv (Wad_mul (Policy.mcr policy) ocean_token) ocean)
                  mnl p) as Hstate.
    destruct (_ p) as [[err | amount] p1] in Hstate |- *;
      cbn [snd] in Hstate; subst p1; [discriminate |].
    unfold bind at 1.
    destruct (Protocol.on_etoken _ _ p) as [[err | []] p2] eqn:Hlock; [discriminate |].
    intros Hrest. apply IH in Hrest as (allocations & Hfunds & Htotal).
    exists ((token_name, amount) :: allocations). split.
    + rewrite Hfunds. cbn. now rewrite <- app_assoc.
    + rewrite Htotal. unfold Protocol.on_etoken in Hlock.
      destruct (Dict.get_item token_name (Protocol.etokens p)) as [etk |] eqn:Hget;
        [| discriminate].
      destruct (EToken.lock_mcr now policy amount etk) as [r etk'] eqn:Hmcr.
      injection Hlock as -> <-.
      apply lock_mcr_returns in Hmcr as (_ & Hmcr & _).
      cbn [Protocol.etokens Protocol.set_etokens].
      rewrite (set_item_total_locked token_name etk etk' _ Hget), Hmcr.
      unfold sum_amounts. cbn [foldr snd]. lia.
Qed.

(** X23: what a policy records is what the pools locked: when
    [new_policy] issues a policy (its [mcr] not negative), the locked
    capital of the pools, added up, has grown by exactly [policy.mcr]. *)
Theorem new_policy_locks_what_it_records
    (now : Z) (risk_module_name : string) (payout premium loss_prob expiration : Z)
    (parameters : list (string * string)) (p p' : Protocol.t) (policy : Policy.t) :
  Protocol.new_policy now risk_module_name payout premium loss_prob expiration
                      parameters p = (inr policy, p') ->
  0 <= Policy.mcr policy ->
  total_locked (Protocol.etokens p')
  = total_locked (Protocol.etokens p) + Policy.mcr policy.
Proof.
  intros Hcall Hmcr.
  destruct (Protocol.risk_modules p !! risk_module_name) as [rm |] eqn:Hrm.
  2:{ rewrite new_policy_unknown in Hcall by exact Hrm. discriminate. }
  rewrite (new_policy_known _ _ _ _ _ _ _ _ rm Hrm) in Hcall. cbv zeta in Hcall.
  set (draft := drafted_policy now p rm payout premium loss_prob expiration parameters)
    in Hcall.
  destruct (Policy.interest_rate draft) as [err | rate] eqn:Hrate; [discriminate |].
  destruct (rate >? 0); [| discriminate].
  destruct (Z.geb_spec (fst (scan_oceans now draft (Protocol.etokens p) (0, [])))
                       (Policy.mcr draft)) as [Hcapital |]; [| discriminate].
  destruct (Protocol.lock_funds _ _ _ _ _ _ _ _) as [[err | issued] p2] eqn:Hlock;
    [discriminate |].
  injection Hcall as <- <-.
  apply interest_rate_mcr_nonzero in Hrate.
  pose proof (lock_funds_total_locked _ _ _ _ _ _ _ _ _ _ Hlock)
    as (locked & Hlocked & Htotal).
  apply lock_funds_allocates in Hlock as (Hsame & allocations & Hfunds & _ & Hsum).
  rewrite Hlocked in Hfunds. apply app_inv_head in Hfunds. subst locked.
  cbn [Protocol.etokens Protocol.set_policies]. rewrite Htotal, Hsame.
  cbn [Protocol.etokens Protocol.set_policy_count]. f_equal.
  rewrite Hsame in Hmcr. apply Hsum; [| lia].
  intros Hnil.
  pose proof (scan_oceans_empty now draft (Protocol.etokens p) (0, [])
                (fun _ => eq_refl) Hnil).
  lia.
Qed.

Lemma new_policy_locks_what_it_records_witness :
  total_locked (Protocol.etokens (snd (Scenario.sell 200 Scenario.two_pools)))
  = total_locked (Protocol.etokens Scenario.two_pools)
    + Policy.mcr Scenario.split_policy.
Proof.
  apply (new_policy_locks_what_it_records 0 "R" (Scenario.dollars 200)
           (Scenario.dollars 100) (RAY ÷ 100) (30 * Scenario.day) []
           Scenario.two_pools (snd (Scenario.sell 200 Scenario.two_pools))
           Scenario.split_policy).
  - vm_compute. reflexivity.
  - vm_compute. discriminate.
Defined.
